(** * xdotool [fakemap]: a shallow embedding of [cmd_fakemap.c]

    The command switches the X keyboard layout to a flat one, grabs the keys
    whose binding changed, and relays every grabbed key event to the focused
    window after translating it through two tables of [charcodemap_t] rows.

    The program talks to libc, Xlib and libxdo.  Their calls are recorded, in
    program order, in a trace of [call]s; the values they hand back (the
    results of [getopt_long_only], the layout name, the key tables, the focused
    window, key codes of the modifier keys) are inputs of the model.  Calls to
    [xdotool_debug], which only log when the tool runs with its debug flag,
    are left out of the trace.  [fork] is taken to succeed and [execlp] to
    replace the child: a child process is one [execlp] entry in the trace,
    followed by the parent's [waitpid].  The allocations ([malloc], [calloc])
    are taken to succeed. *)

From Stdlib Require Import ZArith Lia Ascii.
From stdpp Require Import base option list gmap strings.

Local Open Scope Z_scope.

(** ** Constants of the X protocol headers (X.h) and of libc *)

Module X.
Definition KeyPress : Z := 2.
Definition KeyRelease : Z := 3.
Definition KeyPressMask : Z := 1.
Definition KeyReleaseMask : Z := 2.
Definition ShiftMask : Z := 1.
Definition ControlMask : Z := 4.
Definition Mod5Mask : Z := 128.
Definition GrabModeSync : Z := 0.
Definition GrabModeAsync : Z := 1.
Definition SyncKeyboard : Z := 4.
End X.

Definition EXIT_SUCCESS : Z := 0.
Definition EXIT_FAILURE : Z := 1.
Definition SIGINT : Z := 2.
Definition SIGTERM : Z := 15.

(** [static const int PRESERVED_MODS = ControlMask;] *)
Definition PRESERVED_MODS : Z := X.ControlMask.

(** ** C integer conversions

    [int] and [unsigned int] are 32 bits wide.  A value stored into an
    [unsigned int] is reduced modulo 2^32; a value stored into an [int] is
    brought back into [-2^31, 2^31). *)

Definition to_uint (z : Z) : Z := z mod 2 ^ 32.

Definition to_int (z : Z) : Z :=
  let u := to_uint z in if u <? 2 ^ 31 then u else u - 2 ^ 32.

(** C truth value of an integer. *)
Definition truthy (z : Z) : bool := negb (z =? 0).

(** [!e] on a [Bool] (an [int]). *)
Definition lnot_int (b : bool) : Z := if b then 0 else 1.

(** ** Data *)

(** Modelled from the spec: [charcodemap_t] is declared in libxdo's [xdo.h],
    outside [cmd_fakemap.c]; the record carries the five fields the command
    reads ([key]: the character, a [wchar_t]; [code]: the physical key, a
    [KeyCode]; [symbol]: the keysym; [group]; [modmask]). *)
Record charcodemap_t : Type := Charcodemap {
  key : Z;
  code : Z;
  symbol : Z;
  group : Z;
  modmask : Z
}.

#[global] Instance charcodemap_eq_dec : EqDecision charcodemap_t.
Proof. solve_decision. Defined.

(** The fields of Xlib's [XKeyEvent] that the command reads or writes. *)
Record XKeyEvent : Type := KeyEvent {
  type : Z;
  send_event : bool;
  window : Z;
  time : Z;
  state : Z;
  keycode : Z
}.

#[global] Instance XKeyEvent_eq_dec : EqDecision XKeyEvent.
Proof. solve_decision. Defined.

Definition set_window (w : Z) (e : XKeyEvent) : XKeyEvent :=
  KeyEvent (type e) (send_event e) w (time e) (state e) (keycode e).

Definition set_type (t : Z) (e : XKeyEvent) : XKeyEvent :=
  KeyEvent t (send_event e) (window e) (time e) (state e) (keycode e).

Definition set_state (s : Z) (e : XKeyEvent) : XKeyEvent :=
  KeyEvent (type e) (send_event e) (window e) (time e) s (keycode e).

Definition set_keycode (k : Z) (e : XKeyEvent) : XKeyEvent :=
  KeyEvent (type e) (send_event e) (window e) (time e) (state e) k.

(** Arguments of a [printf]-family call. *)
Inductive fmt_arg : Type :=
| arg_string (s : string)
| arg_wchar (c : Z).

Inductive stream : Type := stdout | stderr.

(** The two X error handlers the command installs. *)
Inductive error_handler : Type :=
| ignore_already_grabbed
| orig_error_handler.

(** One entry of the trace: a call whose effect is visible outside the
    process (or, for [XkbRF_GetNamesProp] and the keymap refresh, a read of
    the server state whose position in the run matters). *)
Inductive call : Type :=
| fprintf (out : stream) (format : string) (args : list fmt_arg)
| consume_args (n : Z)
| setlocale_LC_CTYPE
| XkbRF_GetNamesProp
| atexit_restore_layout
| signal_exit_success (signum : Z)
| execlp (file : string) (argv : list string)
| waitpid
| xdo_new_with_opened_display
| xdo_free
| XSetErrorHandler (h : error_handler)
| XSync
| XGrabKey (keycode modifiers grab_window : Z) (owner_events : bool)
           (pointer_mode keyboard_mode : Z)
| XAllowEvents (event_mode time : Z)
| XSendEvent (w : Z) (propagate : bool) (event_mask : Z) (event : XKeyEvent).

(** The tools run so far, each with its whole argument vector. *)
Definition executed (t : list call) : list (string * list string) :=
  flat_map (fun c => match c with
                     | execlp file argv => [(file, argv)]
                     | _ => []
                     end) t.

(** ** The preferred-binding index (lines 134-157)

    [map_by_char] is an array of 2^16 pointers into the new table, all NULL
    after [calloc]; it is modelled as a finite map from characters to rows.
    The C array is only defined for characters in [0, 2^16). *)

Section Resolver.
(** libc's [iscntrl], in the locale picked by [setlocale(LC_CTYPE, ...)]. *)
Variable iscntrl : Z -> bool.

(** One turn of the loop at lines 141-157: the map after row [map]. *)
Definition prefer (map_by_char : gmap Z charcodemap_t) (map : charcodemap_t)
  : gmap Z charcodemap_t :=
  if iscntrl (key map) then map_by_char
  else
    match map_by_char !! key map with
    | Some curmap =>
        if iscntrl (key map) then map_by_char
        else if symbol curmap <? symbol map then map_by_char
        else if modmask curmap <? modmask map then map_by_char
        else <[key map := map]> map_by_char
    | None => <[key map := map]> map_by_char
    end.

Definition build_map_by_char (charcodes : list charcodemap_t)
  : gmap Z charcodemap_t :=
  foldl prefer ∅ charcodes.
End Resolver.

(** [iscntrl] of the C locale, for concrete runs. *)
Definition iscntrl_C (c : Z) : bool :=
  ((0 <=? c) && (c <? 32)) || (c =? 127).

(** ** The key grabs (lines 164-192) *)

(** One turn of the grab loop: the [XGrabKey] requests issued for row [chr]
    of the original table.  [modifiers] is an [unsigned int] parameter. *)
Definition grab_row (map_by_char : gmap Z charcodemap_t) (root : Z)
    (chr : charcodemap_t) : list call :=
  match map_by_char !! key chr with
  | None => []
  | Some map =>
      if (code map =? code chr) && (modmask map =? modmask chr) then []
      else
        [ XGrabKey (code chr) (to_uint (modmask chr)) root false
            X.GrabModeAsync X.GrabModeSync;
          XGrabKey (code chr) (to_uint (Z.lor (modmask chr) X.ControlMask))
            root false X.GrabModeAsync X.GrabModeSync ]
  end.

Definition grab_keys (map_by_char : gmap Z charcodemap_t) (root : Z)
    (orig_charcodes : list charcodemap_t) : list call :=
  flat_map (grab_row map_by_char root) orig_charcodes.

(** ** The event loop (lines 196-279) *)

Definition nl : string := String (Ascii.ascii_of_nat 10) EmptyString.

(** [printf("unknown key %lc\n", chr.key);] *)
Definition unknown_key (chr : charcodemap_t) : call :=
  fprintf stdout ("unknown key %lc" +:+ nl) [arg_wchar (key chr)].

(** What the X server answers while one event is handled: the window with
    the input focus ([xdo_get_focused_window]) and the key codes of the two
    modifier keys ([XKeysymToKeycode] of [XK_Shift_L] and of
    [XK_ISO_Level3_Shift]). *)
Record xserver : Type := XServer {
  focused_window : Z;
  Shift_L_keycode : Z;
  ISO_Level3_Shift_keycode : Z
}.

Section EventLoop.
Variable orig_charcodes : list charcodemap_t.
Variable map_by_char : gmap Z charcodemap_t.
Variable srv : xserver.

(** [Bool pressed = key.type == KeyPress;] *)
Definition pressed (xkey : XKeyEvent) : bool := type xkey =? X.KeyPress.

(** [int relevant_modmask = key.state &~ PRESERVED_MODS;] *)
Definition relevant_modmask (xkey : XKeyEvent) : Z :=
  to_int (Z.land (state xkey) (to_uint (Z.lnot PRESERVED_MODS))).

(** Lines 253-261: the Shift reconciliation.  Returns the (possibly
    rewritten) scratch event [shift] and the request sent. *)
Definition reconcile_shift (xkey shift : XKeyEvent) (map : charcodemap_t)
  : XKeyEvent * list call :=
  if negb (Z.land (state xkey) X.ShiftMask =? Z.land (modmask map) X.ShiftMask)
  then
    let shift_down :=
      Z.lxor (Z.land (modmask map) X.ShiftMask) (lnot_int (pressed xkey)) in
    let shift1 :=
      set_type (if truthy shift_down then X.KeyPress else X.KeyRelease) shift in
    let mask := if truthy shift_down then X.KeyPressMask else X.KeyReleaseMask in
    let shift2 := set_state 0 shift1 in
    let shift3 := set_keycode (Shift_L_keycode srv) shift2 in
    (shift3, [XSendEvent (focused_window srv) true mask shift3])
  else (shift, []).

(** Lines 263-271: the third-level-shift reconciliation. *)
Definition reconcile_level3 (xkey shift : XKeyEvent) (map : charcodemap_t)
  : XKeyEvent * list call :=
  if negb (Z.land (state xkey) 128 =? Z.land (modmask map) 128)
  then
    let shift_down :=
      Z.lxor (Z.land (modmask map) X.Mod5Mask) (lnot_int (pressed xkey)) in
    let shift1 :=
      set_type (if truthy shift_down then X.KeyPress else X.KeyRelease) shift in
    let mask := if truthy shift_down then X.KeyPressMask else X.KeyReleaseMask in
    let shift2 := set_state 0 shift1 in
    let shift3 := set_keycode (ISO_Level3_Shift_keycode srv) shift2 in
    (shift3, [XSendEvent (focused_window srv) true mask shift3])
  else (shift, []).

(** Lines 273-275: the primary event, the observed event rewritten to the
    target binding. *)
Definition primary_event (xkey : XKeyEvent) (map : charcodemap_t) : XKeyEvent :=
  let key1 := set_keycode (code map) xkey in
  set_state (to_uint (Z.lor (modmask map) (Z.land (state xkey) PRESERVED_MODS)))
    key1.

Definition send_primary (xkey : XKeyEvent) (map : charcodemap_t) : call :=
  XSendEvent (focused_window srv) true
    (if pressed xkey then X.KeyPressMask else X.KeyReleaseMask)
    (primary_event xkey map).

(** Lines 248-275: everything sent for a matched row with target [map]. *)
Definition send_translation (xkey : XKeyEvent) (map : charcodemap_t)
  : list call :=
  let key1 := set_window (focused_window srv) xkey in
  let '(shift1, sent1) := reconcile_shift key1 key1 map in
  let '(shift2, sent2) := reconcile_level3 key1 shift1 map in
  sent1 ++ sent2 ++ [send_primary key1 map].

(** Does row [chr] match the observed event (lines 226-228)? *)
Definition row_matches (xkey : XKeyEvent) (chr : charcodemap_t) : bool :=
  (code chr =? keycode xkey) && (relevant_modmask xkey =? modmask chr).

(** Lines 224-277: the scan of the original table, from row [rows] on.
    [continue] goes on with the rest, [break] ends the scan. *)
Fixpoint translate (xkey : XKeyEvent) (rows : list charcodemap_t)
  : list call :=
  match rows with
  | [] => []
  | chr :: rest =>
      if negb (code chr =? keycode xkey) then translate xkey rest
      else if negb (relevant_modmask xkey =? modmask chr) then translate xkey rest
      else
        match map_by_char !! key chr with
        | None => unknown_key chr :: translate xkey rest
        | Some map => send_translation xkey map
        end
  end.

(** One turn of [while (True)]: the calls made for the event [xevent] that
    [XNextEvent] delivered. *)
Definition handle_event (xevent : XKeyEvent) : list call :=
  if negb (type xevent =? X.KeyPress) && negb (type xevent =? X.KeyRelease)
  then []
  else
    XAllowEvents X.SyncKeyboard (time xevent)
      :: (if send_event xevent then [] else translate xevent orig_charcodes).
End EventLoop.

(** The loop over the events delivered so far, each with the server's
    answers at that moment. *)
Definition event_loop (orig_charcodes : list charcodemap_t)
    (map_by_char : gmap Z charcodemap_t)
    (events : list (xserver * XKeyEvent)) : list call :=
  flat_map (fun '(srv, xevent) =>
              handle_event orig_charcodes map_by_char srv xevent) events.

(** ** The process: start-up (lines 32-194) and termination *)

(** Functions registered with [atexit]. *)
Inductive exit_hook : Type := restore_layout_hook.

(** The state of the process the command runs in. *)
Record process : Type := Process {
  orig_layout : option string;        (* [static char* orig_layout = NULL] *)
  atexit_hooks : list exit_hook;      (* most recently registered first *)
  exit_signals : list Z;              (* signals handled by [exit_success] *)
  charcodes : list charcodemap_t;     (* [context->xdo->charcodes] *)
  trace : list call
}.

(** What the command is started with and what its surroundings answer. *)
Record inputs : Type := Inputs {
  cmd : string;                       (* [*context->argv] *)
  argc : Z;                           (* [context->argc] *)
  (* the successive results of [getopt_long_only] with the value of
     [optarg] at each; the end of the list stands for [-1] *)
  getopt_results : list (Z * option string);
  optind : Z;                         (* [optind] once parsing has ended *)
  (* [orig_vardefs.layout] as filled in by [XkbRF_GetNamesProp] *)
  vardefs_layout : option string;
  (* the table [xdo_new_with_opened_display] derives from the server's
     keyboard configuration, which is a function of the layout tools that
     have run *)
  server_charcodes : list (string * list string) -> list charcodemap_t;
  root : Z                            (* [XDefaultRootWindow] *)
}.

(** A computation either goes on with a value or has made [cmd_fakemap]
    return a status. *)
Inductive outcome (A : Type) : Type :=
| Go (a : A)
| Returned (status : Z).
Arguments Go {A} a.
Arguments Returned {A} status.

Definition M (A : Type) : Type := process -> outcome A * process.

#[global] Instance M_ret : MRet M := fun A a p => (Go a, p).

#[global] Instance M_bind : MBind M := fun A B f c p =>
  match c p with
  | (Go a, p') => f a p'
  | (Returned status, p') => (Returned status, p')
  end.

Definition return_ {A : Type} (status : Z) : M A := fun p => (Returned status, p).

Definition do (c : call) : M unit := fun p =>
  (Go (), Process (orig_layout p) (atexit_hooks p) (exit_signals p)
            (charcodes p) (trace p ++ [c])).

(** Several calls in a row. *)
Definition emit (t : list call) : M unit := fun p =>
  (Go (), Process (orig_layout p) (atexit_hooks p) (exit_signals p)
            (charcodes p) (trace p ++ t)).

Definition set_orig_layout (l : option string) : M unit := fun p =>
  (Go (), Process l (atexit_hooks p) (exit_signals p) (charcodes p) (trace p)).

Definition atexit (h : exit_hook) : M unit := fun p =>
  (Go (), Process (orig_layout p) (h :: atexit_hooks p) (exit_signals p)
            (charcodes p) (trace p ++ [atexit_restore_layout])).

Definition signal (signum : Z) : M unit := fun p =>
  (Go (), Process (orig_layout p) (atexit_hooks p) (signum :: exit_signals p)
            (charcodes p) (trace p ++ [signal_exit_success signum])).

Definition get_charcodes : M (list charcodemap_t) := fun p => (Go (charcodes p), p).

(** [if(!(child = fork())) { execlp(...); } waitpid(child, NULL, 0);] *)
Definition spawn (file : string) (argv : list string) : M unit :=
  do (execlp file argv) ;; do waitpid.

Definition opt_unused : Z := 0.
Definition opt_help : Z := 1.
Definition opt_window : Z := 2.

Section Startup.
(** The macro [HELP_SEE_WINDOW_STACK] of [xdo_cmd.h]. *)
Variable HELP_SEE_WINDOW_STACK : string.
Variable iscntrl : Z -> bool.
Variable inp : inputs.

Definition usage : string :=
  "Usage: %s [--window windowid]"
  +:+ "--window <windowid>    - specify a window to send keys to" +:+ nl
  +:+ "-h, --help             - show this help output" +:+ nl
  +:+ HELP_SEE_WINDOW_STACK.

(** Lines 55-70.  [window_arg] is the value kept so far. *)
Fixpoint parse_options (results : list (Z * option string))
    (window_arg : option string) : M (option string) :=
  match results with
  | [] => mret window_arg
  | (c, optarg) :: rest =>
      if c =? -1 then mret window_arg
      else if c =? opt_window then parse_options rest optarg
      else if c =? opt_help then
        do (fprintf stdout usage [arg_string (cmd inp)]) ;;
        do (consume_args (argc inp)) ;;
        return_ EXIT_SUCCESS
      else
        do (fprintf stderr usage [arg_string (cmd inp)]) ;;
        return_ EXIT_FAILURE
  end.

(** Lines 97-101 and 127-131: the keymap refresh. *)
Definition refresh_keymap : M unit := fun p =>
  (Go (), Process (orig_layout p) (atexit_hooks p) (exit_signals p)
            (server_charcodes inp (executed (trace p)))
            (trace p ++ [xdo_new_with_opened_display; xdo_free])).

(** Lines 32-194: everything up to the event loop.  The result is the pair
    of tables the loop translates with. *)
Definition startup : M (list charcodemap_t * gmap Z charcodemap_t) :=
  window_arg ← parse_options (getopt_results inp) None;
  do (consume_args (optind inp)) ;;
  do setlocale_LC_CTYPE ;;
  do XkbRF_GetNamesProp ;;
  set_orig_layout (vardefs_layout inp) ;;
  atexit restore_layout_hook ;;
  signal SIGTERM ;;
  signal SIGINT ;;
  spawn "setxkbmap" ["setxkbmap"; "-variant"; "nodeadkeys"] ;;
  refresh_keymap ;;
  orig_charcodes ← get_charcodes;
  spawn "setxkbmap" ["-layout"; "us"; "-variant"; "basic"] ;;
  spawn "xmodmap"
    ["xmodmap"; "-e"; "remove mod1 = Alt_R";
     "-e"; "keysym Alt_R = ISO_Level3_Shift";
     "-e"; "add mod5 = ISO_Level3_Shift"] ;;
  do XkbRF_GetNamesProp ;;
  refresh_keymap ;;
  new_charcodes ← get_charcodes;
  let map_by_char := build_map_by_char iscntrl new_charcodes in
  do (XSetErrorHandler ignore_already_grabbed) ;;
  do XSync ;;
  emit (grab_keys map_by_char (root inp) orig_charcodes) ;;
  do XSync ;;
  do (XSetErrorHandler orig_error_handler) ;;
  mret (orig_charcodes, map_by_char).
End Startup.

(** The process as [main] hands it to the command: nothing captured, no
    hook, default signal dispositions. *)
Definition initial_process (charcodes0 : list charcodemap_t) : process :=
  Process None [] [] charcodes0 [].

(** [restore_layout] (lines 314-322). *)
Definition restore_layout (p : process) : list call :=
  match orig_layout p with
  | None => []
  | Some layout => [execlp "setxkbmap" ["-layout"; layout]; waitpid]
  end.

Definition run_hook (p : process) (h : exit_hook) : list call :=
  match h with
  | restore_layout_hook => restore_layout p
  end.

(** [exit]: the registered functions run, last registered first. *)
Definition exit (p : process) : list call :=
  flat_map (run_hook p) (atexit_hooks p).

(** Delivery of a signal: [exit_success] calls [exit(0)] for the signals it
    was installed for; the default disposition of [SIGTERM] and [SIGINT]
    ends the process without running the exit functions. *)
Definition deliver (signum : Z) (p : process) : list call :=
  if bool_decide (signum ∈ exit_signals p) then exit p else [].

(** [cmd_fakemap] as far as the events delivered so far take it: the
    start-up, then the turns of the loop.  The loop has no exit; a run that
    gets past option parsing never returns. *)
Definition cmd_fakemap (HELP_SEE_WINDOW_STACK : string) (iscntrl : Z -> bool)
    (inp : inputs) (events : list (xserver * XKeyEvent)) : M unit :=
  tables ← startup HELP_SEE_WINDOW_STACK iscntrl inp;
  emit (event_loop tables.1 tables.2 events).

(** * Vocabulary of the properties *)

(** ** Readings of a trace *)

(** The (key code, modifiers) pairs for which a trace requests a grab. *)
Definition grab_set (t : list call) : list (Z * Z) :=
  flat_map (fun c => match c with
                     | XGrabKey k m _ _ _ _ => [(k, m)]
                     | _ => []
                     end) t.

(** The synthesized events of a trace, with their destination and mask. *)
Definition sent_events (t : list call) : list (Z * Z * XKeyEvent) :=
  flat_map (fun c => match c with
                     | XSendEvent w _ m e => [(w, m, e)]
                     | _ => []
                     end) t.

(** The tools run so far as the tools see themselves: [argv[0]] is the name
    slot, the arguments proper start at [argv[1]]. *)
Definition tool_invocations (t : list call) : list (string * list string) :=
  (fun '(file, argv) => (file, tail argv)) <$> executed t.

Definition refreshes (t : list call) : nat :=
  length (flat_map (fun c => match c with
                             | xdo_new_with_opened_display => [c]
                             | _ => []
                             end) t).

(** The part of a trace that precedes its first keymap refresh. *)
Fixpoint before_first_refresh (t : list call) : list call :=
  match t with
  | [] => []
  | xdo_new_with_opened_display :: _ => []
  | c :: rest => c :: before_first_refresh rest
  end.

(** printf's rendering of a format whose first conversion is [%s]. *)
Fixpoint render_s (format arg : string) : string :=
  match format with
  | EmptyString => EmptyString
  | String a rest =>
      match rest with
      | String b rest' =>
          if (Ascii.eqb a "%" && Ascii.eqb b "s")%char then arg +:+ rest'
          else String a (render_s rest arg)
      | EmptyString => format
      end
  end.

(** ** Relations, shapes and sample inputs *)

(** [r] is at least as good as [r'] on both criteria of [prefer], and
    strictly better on one. *)
Definition beats (r r' : charcodemap_t) : Prop :=
  symbol r <= symbol r' /\ modmask r <= modmask r' /\
  (symbol r < symbol r' \/ modmask r < modmask r').

(** Three bindings of the letter a: the one with the lowest keysym needs
    Shift, the other two need no modifier. *)
Definition a_low_shifted : charcodemap_t := Charcodemap 97 11 100 0 1.
Definition a_mid_plain : charcodemap_t := Charcodemap 97 10 200 0 0.
Definition a_high_plain : charcodemap_t := Charcodemap 97 12 300 0 0.

(** Two bindings of the letter b on one keysym, without and with Shift. *)
Definition b_plain : charcodemap_t := Charcodemap 98 56 98 0 0.
Definition b_shifted : charcodemap_t := Charcodemap 98 57 98 0 1.
Definition a_low_plain : charcodemap_t := Charcodemap 97 38 97 0 0.

(** The grabs of the letter e-acute scenario: the original layout has it on
    key [0x12] with Shift, the new layout on key [0x34] without modifier. *)
Definition e_acute_orig : charcodemap_t := Charcodemap 233 18 233 0 X.ShiftMask.
Definition e_acute_new : charcodemap_t := Charcodemap 233 52 233 0 0.

(** The rows of a stretch of the table that the scan diagnoses. *)
Definition diagnosed (xkey : XKeyEvent) (rows : list charcodemap_t) : list call :=
  unknown_key <$> List.filter (row_matches xkey) rows.

(** A modifier event: sent to the focused window, with an empty modifier
    state, for the left Shift key or for the third-level-shift key. *)
Definition modifier_event (srv : xserver) (s : Z * Z * XKeyEvent) : Prop :=
  s.1.1 = focused_window srv /\
  window s.2 = focused_window srv /\
  state s.2 = 0 /\
  (keycode s.2 = Shift_L_keycode srv \/
   keycode s.2 = ISO_Level3_Shift_keycode srv).

(** A server for concrete runs: window 77 has the focus, the left Shift key
    is key 50 and the third-level-shift key is key 92. *)
Definition a_server : xserver := XServer 77 50 92.

(** The index built from a new table that has e-acute on key [0x34]. *)
Definition e_acute_index : gmap Z charcodemap_t :=
  build_map_by_char iscntrl_C [e_acute_new].

(** Two rows of an original table on one key with one mask, in two groups:
    the Greek letter has no binding in the new layout, the letter a has. *)
Definition alpha_orig : charcodemap_t := Charcodemap 945 38 2017 1 0.
Definition a_orig : charcodemap_t := Charcodemap 97 38 97 0 0.
Definition a_new : charcodemap_t := Charcodemap 97 24 97 0 0.

Definition add_trace (p : process) (t : list call) : process :=
  Process (orig_layout p) (atexit_hooks p) (exit_signals p) (charcodes p)
    (trace p ++ t).

(** The three tools, as run. *)
Definition nodeadkeys_tool : string * list string :=
  ("setxkbmap", ["setxkbmap"; "-variant"; "nodeadkeys"]).
Definition us_basic_tool : string * list string :=
  ("setxkbmap", ["-layout"; "us"; "-variant"; "basic"]).
Definition xmodmap_tool : string * list string :=
  ("xmodmap",
   ["xmodmap"; "-e"; "remove mod1 = Alt_R";
    "-e"; "keysym Alt_R = ISO_Level3_Shift";
    "-e"; "add mod5 = ISO_Level3_Shift"]).

(** The table kept as [orig_charcodes] and the index built at start-up. *)
Definition kept_charcodes (inp : inputs) : list charcodemap_t :=
  server_charcodes inp [nodeadkeys_tool].
Definition new_charcodes (inp : inputs) : list charcodemap_t :=
  server_charcodes inp [nodeadkeys_tool; us_basic_tool; xmodmap_tool].
Definition built_index (iscntrl : Z -> bool) (inp : inputs)
  : gmap Z charcodemap_t :=
  build_map_by_char iscntrl (new_charcodes inp).

(** The calls of a start-up that gets past option parsing. *)
Definition startup_trace (iscntrl : Z -> bool) (inp : inputs) : list call :=
  [ consume_args (optind inp); setlocale_LC_CTYPE; XkbRF_GetNamesProp;
    atexit_restore_layout; signal_exit_success SIGTERM;
    signal_exit_success SIGINT;
    execlp nodeadkeys_tool.1 nodeadkeys_tool.2; waitpid;
    xdo_new_with_opened_display; xdo_free;
    execlp us_basic_tool.1 us_basic_tool.2; waitpid;
    execlp xmodmap_tool.1 xmodmap_tool.2; waitpid;
    XkbRF_GetNamesProp;
    xdo_new_with_opened_display; xdo_free;
    XSetErrorHandler ignore_already_grabbed; XSync ]
  ++ grab_keys (built_index iscntrl inp) (root inp) (kept_charcodes inp)
  ++ [ XSync; XSetErrorHandler orig_error_handler ].

(** A call of the event loop: it thaws the keyboard, prints or sends. *)
Definition loop_call (c : call) : bool :=
  match c with
  | XAllowEvents _ _ | fprintf _ _ _ | XSendEvent _ _ _ _ => true
  | _ => false
  end.

(** The process in the event loop. *)
Definition looping (iscntrl : Z -> bool) (inp : inputs)
    (events : list (xserver * XKeyEvent)) : process :=
  Process (vardefs_layout inp) [restore_layout_hook] [SIGINT; SIGTERM]
    (new_charcodes inp)
    (startup_trace iscntrl inp
       ++ event_loop (kept_charcodes inp) (built_index iscntrl inp) events).

(** A server whose key table changes with every layout tool that runs. *)
Definition sample_charcodes (tools : list (string * list string))
  : list charcodemap_t :=
  match tools with
  | [] => [a_orig; alpha_orig]
  | [_] => [a_orig; e_acute_orig]
  | _ => [a_new; e_acute_new]
  end.

Definition sample_inputs : inputs :=
  Inputs "fakemap" 1 [] 1 (Some "de") sample_charcodes 1.

(** [--window 42 --help], and the unknown flag for which [getopt_long_only]
    answers with a question mark. *)
Definition help_inputs : inputs :=
  Inputs "fakemap" 4 [(opt_window, Some "42"); (opt_help, None)] 4
    (Some "de") sample_charcodes 1.
Definition bogus_inputs : inputs :=
  Inputs "fakemap" 2 [(63, None)] 2 (Some "de") sample_charcodes 1.

(** ** Vocabulary of the further properties *)

(** [xevent.type] is one of the two key event types (line 204). *)
Definition is_key_event (e : XKeyEvent) : bool :=
  (type e =? X.KeyPress) || (type e =? X.KeyRelease).

(** A key event that is not marked as sent by a client (line 221). *)
Definition genuine (e : XKeyEvent) : bool :=
  is_key_event e && negb (send_event e).

(** The [XAllowEvents] calls of a trace, and the trace without them. *)
Definition thaws (t : list call) : list (Z * Z) :=
  flat_map (fun c => match c with
                     | XAllowEvents mode time => [(mode, time)]
                     | _ => []
                     end) t.

Definition without_thaws (t : list call) : list call :=
  List.filter (fun c => match c with
                        | XAllowEvents _ _ => false
                        | _ => true
                        end) t.

(** The request for a modifier key as the loop sends it: to the focused
    window, with the time stamp of the observed event and an empty modifier
    state; a key press when [down] holds, a key release otherwise. *)
Definition send_modifier (srv : xserver) (e : XKeyEvent) (kc : Z)
    (down : bool) : call :=
  XSendEvent (focused_window srv) true
    (if down then X.KeyPressMask else X.KeyReleaseMask)
    (KeyEvent (if down then X.KeyPress else X.KeyRelease) (send_event e)
       (focused_window srv) (time e) 0 kc).

(** Does the target binding ask for Shift, for the third level? *)
Definition needs_shift (map : charcodemap_t) : bool :=
  negb (Z.land (modmask map) X.ShiftMask =? 0).
Definition needs_level3 (map : charcodemap_t) : bool :=
  negb (Z.land (modmask map) X.Mod5Mask =? 0).

(** The modifier requests that precede the primary event: Shift first, then
    the third-level shift, each only when the observed state and the target
    disagree on its bit. *)
Definition modifier_requests (srv : xserver) (e : XKeyEvent)
    (map : charcodemap_t) : list call :=
  (if Z.land (state e) X.ShiftMask =? Z.land (modmask map) X.ShiftMask then []
   else [send_modifier srv e (Shift_L_keycode srv)
           (eqb (needs_shift map) (pressed e))])
  ++ (if Z.land (state e) 128 =? Z.land (modmask map) 128 then []
      else [send_modifier srv e (ISO_Level3_Shift_keycode srv)
              (needs_level3 map || negb (pressed e))]).

(** The primary event as sent for the observed event [e]. *)
Definition primary_sent (srv : xserver) (e : XKeyEvent) (map : charcodemap_t)
  : Z * Z * XKeyEvent :=
  (focused_window srv,
   if pressed e then X.KeyPressMask else X.KeyReleaseMask,
   primary_event (set_window (focused_window srv) e) map).

(** A request of the loop is well addressed: it goes to the focused window
    and is propagated, the event names that window, keeps the time stamp of
    the observed event [e], and the event mask fits the event type. *)
Definition well_addressed (srv : xserver) (e : XKeyEvent) (c : call) : Prop :=
  match c with
  | XSendEvent w propagate m ev =>
      w = focused_window srv /\ propagate = true /\
      window ev = focused_window srv /\ time ev = time e /\
      ((m = X.KeyPressMask /\ type ev = X.KeyPress) \/
       (m = X.KeyReleaseMask /\ type ev = X.KeyRelease))
  | _ => True
  end.

(** The release of the key whose press is [e]: the same event but for its
    type. *)
Definition release_of (e : XKeyEvent) : XKeyEvent := set_type X.KeyRelease e.

(** What a trace sends for the key code [kc], in order: [true] for a key
    press, [false] for a key release. *)
Definition key_strokes (kc : Z) (t : list call) : list bool :=
  flat_map (fun c => match c with
                     | XSendEvent _ _ _ ev =>
                         if keycode ev =? kc then [type ev =? X.KeyPress] else []
                     | _ => []
                     end) t.

(** The options [getopt_long_only] reports before it reports the end of the
    options. *)
Fixpoint given_options (results : list (Z * option string))
  : list (Z * option string) :=
  match results with
  | [] => []
  | r :: rest => if r.1 =? -1 then [] else r :: given_options rest
  end.

(** The observed event with the Control bit added to its state. *)
Definition with_control (e : XKeyEvent) : XKeyEvent :=
  set_state (Z.lor (state e) X.ControlMask) e.

(** The same start of the command with other results of
    [getopt_long_only]. *)
Definition with_getopt_results (inp : inputs)
    (results : list (Z * option string)) : inputs :=
  Inputs (cmd inp) (argc inp) results (optind inp) (vardefs_layout inp)
    (server_charcodes inp) (root inp).

(** The part of a trace that precedes its first tool. *)
Fixpoint before_first_tool (t : list call) : list call :=
  match t with
  | [] => []
  | execlp _ _ :: _ => []
  | c :: rest => c :: before_first_tool rest
  end.

(** ** The X error handler (lines 325-330) *)

Definition BadAccess : Z := 10.

(** What a handler does with one error: it writes a line to the standard
    error, or hands the error to the handler that was installed before. *)
Inductive handler_step : Type :=
| warn (message : string)
| forward_to_orig_error_handler (error_code : Z).

(** [ignore_already_grabbed]: the steps taken for an error with code
    [error_code], and the value returned; [orig_result] is what
    [orig_error_handler] returns for the error. *)
Definition ignore_already_grabbed_body (orig_result : Z -> Z) (error_code : Z)
  : list handler_step * Z :=
  if negb (error_code =? BadAccess)
  then ([forward_to_orig_error_handler error_code], orig_result error_code)
  else ([warn ("some grab failed because key is already grabbed (ignoring)"
               +:+ nl)], 1).

(** Xlib calls the handler once for every error the server reports. *)
Definition report_errors (orig_result : Z -> Z) (errors : list Z)
  : list handler_step :=
  flat_map (fun e => (ignore_already_grabbed_body orig_result e).1) errors.

Definition forwarded (steps : list handler_step) : list Z :=
  flat_map (fun s => match s with
                     | forward_to_orig_error_handler e => [e]
                     | warn _ => []
                     end) steps.

Definition warnings (steps : list handler_step) : list string :=
  flat_map (fun s => match s with
                     | warn m => [m]
                     | forward_to_orig_error_handler _ => []
                     end) steps.

(** * Properties *)

(** ** The preferred-binding index *)

Section ResolverFacts.
Variable iscntrl : Z -> bool.

Lemma prefer_other acc x c :
  key x <> c -> prefer iscntrl acc x !! c = acc !! c.
Proof.
  intros Hne. unfold prefer.
  repeat case_match; try done; by rewrite lookup_insert_ne.
Qed.

(** A row takes the slot of its character unless the row already there
    has a lower symbol or a lower modifier mask. *)
Lemma prefer_takes acc x :
  iscntrl (key x) = false ->
  (forall cur, acc !! key x = Some cur ->
               symbol x <= symbol cur /\ modmask x <= modmask cur) ->
  prefer iscntrl acc x !! key x = Some x.
Proof.
  intros Hc Hcur. unfold prefer. rewrite Hc.
  destruct (acc !! key x) as [cur|] eqn:E.
  - destruct (Hcur cur eq_refl) as [Hs Hm].
    destruct (Z.ltb_spec (symbol cur) (symbol x)); [lia|].
    destruct (Z.ltb_spec (modmask cur) (modmask x)); [lia|].
    by rewrite lookup_insert_eq.
  - by rewrite lookup_insert_eq.
Qed.

(** A row that the current one beats leaves the slot alone. *)
Lemma prefer_keeps acc cur x :
  acc !! key x = Some cur -> beats cur x ->
  prefer iscntrl acc x = acc.
Proof.
  intros E (Hs & Hm & Hlt). unfold prefer. rewrite E.
  destruct (iscntrl (key x)); [done|].
  destruct (Z.ltb_spec (symbol cur) (symbol x)); [done|].
  destruct (Z.ltb_spec (modmask cur) (modmask x)); [done|lia].
Qed.

(** The slot of a character holds nothing, or one of the rows seen. *)
Lemma prefer_slot acc x c :
  prefer iscntrl acc x !! c = acc !! c \/
  (key x = c /\ prefer iscntrl acc x !! c = Some x).
Proof.
  destruct (decide (key x = c)) as [<-|Hne].
  - unfold prefer. repeat case_match; auto; right; by rewrite lookup_insert_eq.
  - left. by apply prefer_other.
Qed.

Lemma foldl_prefer_stays r l : forall acc,
  iscntrl (key r) = false ->
  (forall r', r' ∈ l -> key r' = key r -> r' = r \/ beats r r') ->
  acc !! key r = Some r ->
  foldl (prefer iscntrl) acc l !! key r = Some r.
Proof.
  induction l as [|x l IH]; intros acc Hc Hl Hacc; [done|].
  simpl. apply IH; [done| |].
  - intros r' Hin. apply Hl. by right.
  - destruct (decide (key x = key r)) as [Hk|Hk].
    + destruct (Hl x (list_elem_of_here _ _) Hk) as [->|Hb].
      * apply prefer_takes; [done|]. intros cur Hcur.
        rewrite Hacc in Hcur. injection Hcur as <-. lia.
      * rewrite (prefer_keeps acc r x); [done| by rewrite Hk |done].
    + by rewrite prefer_other.
Qed.

(** The row that beats every other row of its character wins the slot,
    wherever it stands in the table. *)
Lemma foldl_prefer_least r l : forall acc,
  iscntrl (key r) = false ->
  (forall r', r' ∈ l -> key r' = key r -> r' = r \/ beats r r') ->
  (forall cur, acc !! key r = Some cur -> cur = r \/ beats r cur) ->
  r ∈ l ->
  foldl (prefer iscntrl) acc l !! key r = Some r.
Proof.
  induction l as [|x l IH]; intros acc Hc Hl Hacc Hin.
  { by apply elem_of_nil in Hin. }
  simpl. destruct (decide (x = r)) as [->|Hxr].
  - apply foldl_prefer_stays; [done| |].
    + intros r' Hr'. apply Hl. by right.
    + apply prefer_takes; [done|]. intros cur Hcur.
      destruct (Hacc cur Hcur) as [->|(? & ? & ?)]; lia.
  - apply IH; [done| | |].
    + intros r' Hr'. apply Hl. by right.
    + intros cur Hcur.
      destruct (prefer_slot acc x (key r)) as [E|[Hk E]].
      * apply Hacc. by rewrite <- E.
      * rewrite E in Hcur. injection Hcur as <-.
        apply Hl; [by left|done].
    + apply elem_of_cons in Hin as [->|Hin]; [done|done].
Qed.

Lemma build_map_by_char_least r l :
  iscntrl (key r) = false ->
  r ∈ l ->
  (forall r', r' ∈ l -> key r' = key r -> r' = r \/ beats r r') ->
  build_map_by_char iscntrl l !! key r = Some r.
Proof.
  intros Hc Hin Hl. unfold build_map_by_char.
  apply foldl_prefer_least; [done|done| |done].
  intros cur Hcur. by rewrite lookup_empty in Hcur.
Qed.
End ResolverFacts.

(** C3, as stated, fails: of three rows for one printable character with
    symbols [100 < 200 < 300], the resolver keeps the row with symbol [200]
    when that row comes first and the row with symbol [100] carries a higher
    modifier mask; fed in another order the same rows give symbol [100].
    The choice depends on the order of the table. *)
Lemma resolver_depends_on_order :
  iscntrl_C (key a_low_shifted) = false /\
  key a_mid_plain = key a_low_shifted /\
  key a_high_plain = key a_low_shifted /\
  symbol a_low_shifted < symbol a_mid_plain /\
  symbol a_mid_plain < symbol a_high_plain /\
  build_map_by_char iscntrl_C [a_mid_plain; a_low_shifted; a_high_plain]
    !! key a_low_shifted = Some a_mid_plain /\
  build_map_by_char iscntrl_C [a_low_shifted; a_mid_plain; a_high_plain]
    !! key a_low_shifted = Some a_low_shifted.
Proof. repeat split; vm_compute; reflexivity. Qed.

(** C3, amended: the resolver selects the row with the lowest symbol [S1] of
    three rows [S1 < S2 < S3] for one printable character, in whatever order
    and position the table holds them, provided the modifier mask of that row
    is not above the masks of the other two; and of two rows with equal
    symbols and masks [M1 < M2] it selects the row with [M1]. *)
Theorem resolver_selects_lowest iscntrl :
  (forall (l : list charcodemap_t) r1 r2 r3,
      iscntrl (key r1) = false ->
      key r2 = key r1 -> key r3 = key r1 ->
      symbol r1 < symbol r2 -> symbol r2 < symbol r3 ->
      modmask r1 <= modmask r2 -> modmask r1 <= modmask r3 ->
      r1 ∈ l -> r2 ∈ l -> r3 ∈ l ->
      (forall r, r ∈ l -> key r = key r1 -> r = r1 \/ r = r2 \/ r = r3) ->
      build_map_by_char iscntrl l !! key r1 = Some r1) /\
  (forall (l : list charcodemap_t) ra rb,
      iscntrl (key ra) = false ->
      key rb = key ra ->
      symbol ra = symbol rb -> modmask ra < modmask rb ->
      ra ∈ l -> rb ∈ l ->
      (forall r, r ∈ l -> key r = key ra -> r = ra \/ r = rb) ->
      build_map_by_char iscntrl l !! key ra = Some ra).
Proof.
  split.
  - intros l r1 r2 r3 Hc Hk2 Hk3 H12 H23 Hm2 Hm3 Hin1 _ _ Hrows.
    apply build_map_by_char_least; [done|done|].
    intros r' Hin Hk. destruct (Hrows r' Hin Hk) as [-> | [-> | ->]].
    + by left.
    + right. unfold beats. lia.
    + right. unfold beats. lia.
  - intros l ra rb Hc Hk Hs Hm Hina _ Hrows.
    apply build_map_by_char_least; [done|done|].
    intros r' Hin Hk'. destruct (Hrows r' Hin Hk') as [-> | ->].
    + by left.
    + right. unfold beats. lia.
Qed.

Lemma resolver_selects_lowest_witness :
  build_map_by_char iscntrl_C [a_high_plain; b_shifted; a_low_plain; a_mid_plain]
    !! 97 = Some a_low_plain /\
  build_map_by_char iscntrl_C [b_shifted; a_mid_plain; b_plain] !! 98
    = Some b_plain.
Proof.
  split.
  - apply (proj1 (resolver_selects_lowest iscntrl_C)
             [a_high_plain; b_shifted; a_low_plain; a_mid_plain]
             a_low_plain a_mid_plain a_high_plain);
      try reflexivity; try (vm_compute; congruence);
      try (repeat first [apply list_elem_of_here | apply list_elem_of_further]).
    intros r Hin Hk.
    repeat (apply elem_of_cons in Hin as [->|Hin]); auto; try discriminate.
    by apply elem_of_nil in Hin.
  - apply (proj2 (resolver_selects_lowest iscntrl_C)
             [b_shifted; a_mid_plain; b_plain] b_plain b_shifted);
      try reflexivity;
      try (repeat first [apply list_elem_of_here | apply list_elem_of_further]).
    intros r Hin Hk.
    repeat (apply elem_of_cons in Hin as [->|Hin]); auto; try discriminate.
    by apply elem_of_nil in Hin.
Defined.

(** ** The key grabs *)

Lemma grab_set_app t1 t2 : grab_set (t1 ++ t2) = grab_set t1 ++ grab_set t2.
Proof. unfold grab_set. apply flat_map_app. Qed.

Lemma grab_set_grab_keys idx root orig :
  grab_set (grab_keys idx root orig)
  = flat_map (fun chr => grab_set (grab_row idx root chr)) orig.
Proof.
  induction orig as [|chr orig IH]; [done|].
  unfold grab_keys in *. simpl. by rewrite grab_set_app, IH.
Qed.

(** The pairs requested for one row: none, or the row's own key with its
    own mask and with Control added. *)
Lemma grab_set_grab_row idx root chr :
  grab_set (grab_row idx root chr) = [] \/
  grab_set (grab_row idx root chr)
  = [(code chr, to_uint (modmask chr));
     (code chr, to_uint (Z.lor (modmask chr) X.ControlMask))].
Proof. unfold grab_row. repeat case_match; auto. Qed.

Lemma to_uint_land z : to_uint z = Z.land z (Z.ones 32).
Proof. unfold to_uint. by rewrite Z.land_ones. Qed.

Lemma to_uint_lor_small z m :
  Z.land m (Z.ones 32) = m -> Z.lor (to_uint z) m = to_uint (Z.lor z m).
Proof.
  intros Hm. rewrite !to_uint_land, Z.land_lor_distr_l. by rewrite Hm.
Qed.

Lemma lor_idem_r z m : Z.lor (Z.lor z m) m = Z.lor z m.
Proof. by rewrite <- Z.lor_assoc, Z.lor_diag. Qed.

(** C1, as stated, fails: the original row for e-acute differs from the
    preferred new binding (key [0x34], no modifier) in key and in mask, and
    the pairs grabbed are the original row's ([0x12] with Shift, and with
    Shift and Control); the preferred binding's pair is not grabbed. *)
Lemma grab_is_not_of_preferred_binding :
  build_map_by_char iscntrl_C [e_acute_new] !! key e_acute_orig
    = Some e_acute_new /\
  code e_acute_new <> code e_acute_orig /\
  modmask e_acute_new <> modmask e_acute_orig /\
  grab_set (grab_keys (build_map_by_char iscntrl_C [e_acute_new]) 1 [e_acute_orig])
    = [(18, 1); (18, 5)] /\
  (code e_acute_new, modmask e_acute_new)
    ∉ grab_set (grab_keys (build_map_by_char iscntrl_C [e_acute_new]) 1
                  [e_acute_orig]).
Proof.
  assert (grab_set (grab_keys (build_map_by_char iscntrl_C [e_acute_new]) 1
                      [e_acute_orig]) = [(18, 1); (18, 5)]) as E
    by (vm_compute; reflexivity).
  repeat split; try done.
  rewrite E. intros Hin.
  repeat (apply elem_of_cons in Hin as [Hin|Hin]; [discriminate Hin|]).
  by apply elem_of_nil in Hin.
Qed.

(** C1, amended: for every row of the original table whose character has a
    preferred new-layout binding that differs from the row in key code or in
    modifier mask, the two [XGrabKey] requests issued are for the row's own
    key code with the row's own modifier mask, and with that mask and the
    Control bit; both are part of the grab set of the table. *)
Theorem grab_is_of_original_row idx root (orig : list charcodemap_t) chr map :
  chr ∈ orig ->
  idx !! key chr = Some map ->
  code map <> code chr \/ modmask map <> modmask chr ->
  grab_row idx root chr
  = [ XGrabKey (code chr) (to_uint (modmask chr)) root false
        X.GrabModeAsync X.GrabModeSync;
      XGrabKey (code chr) (to_uint (Z.lor (modmask chr) X.ControlMask)) root
        false X.GrabModeAsync X.GrabModeSync ] /\
  (code chr, to_uint (modmask chr)) ∈ grab_set (grab_keys idx root orig) /\
  (code chr, to_uint (Z.lor (modmask chr) X.ControlMask))
    ∈ grab_set (grab_keys idx root orig).
Proof.
  intros Hin Hmap Hdiff.
  assert (grab_row idx root chr
          = [ XGrabKey (code chr) (to_uint (modmask chr)) root false
                X.GrabModeAsync X.GrabModeSync;
              XGrabKey (code chr) (to_uint (Z.lor (modmask chr) X.ControlMask))
                root false X.GrabModeAsync X.GrabModeSync ]) as E.
  { unfold grab_row. rewrite Hmap.
    destruct (Z.eqb_spec (code map) (code chr)) as [Hc|Hc];
      destruct (Z.eqb_spec (modmask map) (modmask chr)) as [Hm|Hm];
      simpl; try done.
    destruct Hdiff; done. }
  split; [done|].
  rewrite grab_set_grab_keys.
  split; apply list_elem_of_In, in_flat_map; exists chr;
    (split; [by apply list_elem_of_In|]); rewrite E; simpl; auto.
Qed.

Lemma grab_is_of_original_row_witness :
  grab_row (build_map_by_char iscntrl_C [e_acute_new]) 1 e_acute_orig
  = [ XGrabKey 18 1 1 false 1 0; XGrabKey 18 5 1 false 1 0 ] /\
  (18, 1) ∈ grab_set (grab_keys (build_map_by_char iscntrl_C [e_acute_new]) 1
                        [a_low_plain; e_acute_orig]) /\
  (18, 5) ∈ grab_set (grab_keys (build_map_by_char iscntrl_C [e_acute_new]) 1
                        [a_low_plain; e_acute_orig]).
Proof.
  apply (grab_is_of_original_row (build_map_by_char iscntrl_C [e_acute_new]) 1
           [a_low_plain; e_acute_orig] e_acute_orig e_acute_new).
  - apply list_elem_of_further, list_elem_of_here.
  - vm_compute. reflexivity.
  - left. vm_compute. congruence.
Defined.

(** C7: the grab set is closed under adding the Control bit: with every
    requested pair (code, mask) the pair (code, mask | Control) is requested
    too. *)
Theorem grab_set_closed_under_control idx root (orig : list charcodemap_t) k m :
  (k, m) ∈ grab_set (grab_keys idx root orig) ->
  (k, Z.lor m X.ControlMask) ∈ grab_set (grab_keys idx root orig).
Proof.
  rewrite grab_set_grab_keys. intros Hin.
  apply list_elem_of_In, in_flat_map in Hin as (chr & Hchr & Hin).
  apply list_elem_of_In, in_flat_map. exists chr. split; [done|].
  destruct (grab_set_grab_row idx root chr) as [E|E]; rewrite E in *.
  - destruct Hin.
  - assert (Z.land X.ControlMask (Z.ones 32) = X.ControlMask) as Hsmall
      by reflexivity.
    destruct Hin as [Heq|[Heq|[]]]; injection Heq as <- <-; right; left;
      f_equal; rewrite (to_uint_lor_small _ _ Hsmall); [done|].
    by rewrite lor_idem_r.
Qed.

Lemma grab_set_closed_under_control_witness :
  (18, Z.lor 1 X.ControlMask)
    ∈ grab_set (grab_keys (build_map_by_char iscntrl_C [e_acute_new]) 1
                  [a_low_plain; e_acute_orig]).
Proof.
  apply (grab_set_closed_under_control
           (build_map_by_char iscntrl_C [e_acute_new]) 1
           [a_low_plain; e_acute_orig] 18 1).
  vm_compute. apply list_elem_of_here.
Defined.

(** ** The event loop *)

Lemma sent_events_app t1 t2 :
  sent_events (t1 ++ t2) = sent_events t1 ++ sent_events t2.
Proof. unfold sent_events. apply flat_map_app. Qed.

Section EventLoopFacts.
Variable orig_charcodes : list charcodemap_t.
Variable map_by_char : gmap Z charcodemap_t.
Variable srv : xserver.

Local Abbreviation scan := (translate map_by_char srv).

(** The three ways a turn of the scan can go. *)
Lemma translate_skip xkey chr rest :
  row_matches xkey chr = false ->
  scan xkey (chr :: rest) = scan xkey rest.
Proof.
  unfold row_matches. intros H. simpl.
  destruct (code chr =? keycode xkey); [|done].
  simpl in H. by rewrite H.
Qed.

Lemma translate_unknown xkey chr rest :
  row_matches xkey chr = true -> map_by_char !! key chr = None ->
  scan xkey (chr :: rest) = unknown_key chr :: scan xkey rest.
Proof.
  unfold row_matches. intros H Hmap. apply andb_prop in H as [H1 H2].
  simpl. by rewrite H1, H2, Hmap.
Qed.

Lemma translate_hit xkey chr map rest :
  row_matches xkey chr = true -> map_by_char !! key chr = Some map ->
  scan xkey (chr :: rest) = send_translation srv xkey map.
Proof.
  unfold row_matches. intros H Hmap. apply andb_prop in H as [H1 H2].
  simpl. by rewrite H1, H2, Hmap.
Qed.

Lemma sent_events_diagnosed xkey rows : sent_events (diagnosed xkey rows) = [].
Proof.
  unfold diagnosed. induction (List.filter (row_matches xkey) rows); done.
Qed.

(** A stretch of rows none of which is both matching and resolvable is
    scanned to its end. *)
Lemma translate_through xkey pre rest :
  (forall r, r ∈ pre -> row_matches xkey r = true -> map_by_char !! key r = None) ->
  scan xkey (pre ++ rest) = diagnosed xkey pre ++ scan xkey rest.
Proof.
  induction pre as [|r pre IH]; intros Hpre; [done|].
  assert (scan xkey (pre ++ rest)
          = diagnosed xkey pre ++ scan xkey rest) as IH'.
  { apply IH. intros r' Hin. apply Hpre. by right. }
  change ((r :: pre) ++ rest) with (r :: (pre ++ rest)).
  destruct (row_matches xkey r) eqn:Hm.
  - rewrite translate_unknown; [|done|apply Hpre; [by left|done]].
    unfold diagnosed in *. simpl. rewrite Hm. simpl. by rewrite IH'.
  - rewrite translate_skip; [|done].
    unfold diagnosed in *. simpl. by rewrite Hm.
Qed.

(** The table splits at its first matching and resolvable row, if any. *)
Lemma first_target xkey (rows : list charcodemap_t) :
  (forall r, r ∈ rows -> row_matches xkey r = true -> map_by_char !! key r = None) \/
  exists pre chr map post,
    rows = pre ++ chr :: post /\
    row_matches xkey chr = true /\
    map_by_char !! key chr = Some map /\
    (forall r, r ∈ pre -> row_matches xkey r = true -> map_by_char !! key r = None).
Proof.
  induction rows as [|r rows IH].
  { left. intros r Hin. by apply elem_of_nil in Hin. }
  destruct (row_matches xkey r) eqn:Hm;
    [destruct (map_by_char !! key r) as [map|] eqn:Hmap|].
  - right. exists [], r, map, rows. repeat split; try done.
    intros r' Hin. by apply elem_of_nil in Hin.
  - destruct IH as [IH|(pre & chr & map & post & -> & ? & ? & Hpre)].
    + left. intros r' Hin. apply elem_of_cons in Hin as [->|Hin]; auto.
    + right. exists (r :: pre), chr, map, post. repeat split; try done.
      intros r' Hin. apply elem_of_cons in Hin as [->|Hin]; auto.
  - destruct IH as [IH|(pre & chr & map & post & -> & ? & ? & Hpre)].
    + left. intros r' Hin. apply elem_of_cons in Hin as [->|Hin]; auto.
      congruence.
    + right. exists (r :: pre), chr, map, post. repeat split; try done.
      intros r' Hin. apply elem_of_cons in Hin as [->|Hin]; auto.
      congruence.
Qed.

Lemma reconcile_shift_sent xkey shift map :
  sent_events (reconcile_shift srv xkey shift map).2 = [] \/
  exists s, sent_events (reconcile_shift srv xkey shift map).2 = [s] /\
            (window shift = focused_window srv -> modifier_event srv s).
Proof.
  unfold reconcile_shift. case_match; [right|by left].
  eexists. split; [reflexivity|]. intros Hw. unfold modifier_event. simpl. auto.
Qed.

Lemma reconcile_shift_window xkey shift map :
  window (reconcile_shift srv xkey shift map).1 = window shift.
Proof. unfold reconcile_shift. by case_match. Qed.

Lemma reconcile_level3_sent xkey shift map :
  sent_events (reconcile_level3 srv xkey shift map).2 = [] \/
  exists s, sent_events (reconcile_level3 srv xkey shift map).2 = [s] /\
            (window shift = focused_window srv -> modifier_event srv s).
Proof.
  unfold reconcile_level3. case_match; [right|by left].
  eexists. split; [reflexivity|]. intros Hw. unfold modifier_event. simpl. auto.
Qed.

(** What a translated row sends: at most two modifier events, then the
    primary event. *)
Lemma sent_events_send_translation xkey map :
  exists mods,
    sent_events (send_translation srv xkey map)
    = mods ++ [(focused_window srv,
                if pressed xkey then X.KeyPressMask else X.KeyReleaseMask,
                primary_event (set_window (focused_window srv) xkey) map)] /\
    (length mods <= 2)%nat /\
    Forall (modifier_event srv) mods.
Proof.
  unfold send_translation.
  set (key1 := set_window (focused_window srv) xkey).
  pose proof (reconcile_shift_sent key1 key1 map) as H1.
  pose proof (reconcile_shift_window key1 key1 map) as Hw.
  destruct (reconcile_shift srv key1 key1 map) as [shift1 sent1].
  pose proof (reconcile_level3_sent key1 shift1 map) as H2.
  destruct (reconcile_level3 srv key1 shift1 map) as [shift2 sent2].
  simpl in *.
  exists (sent_events sent1 ++ sent_events sent2).
  split; [by rewrite !sent_events_app, app_assoc|].
  assert (window shift1 = focused_window srv) as Hw1 by (by rewrite Hw).
  destruct H1 as [->|(s1 & -> & Hs1)]; destruct H2 as [->|(s2 & -> & Hs2)];
    simpl; (split; [lia|]);
    repeat first [apply Forall_nil_2 | apply Forall_cons_2];
    first [by apply Hs1 | by apply Hs2].
Qed.

Lemma handle_event_sent xevent :
  sent_events (handle_event orig_charcodes map_by_char srv xevent) = [] \/
  sent_events (handle_event orig_charcodes map_by_char srv xevent)
  = sent_events (scan xevent orig_charcodes).
Proof.
  unfold handle_event. repeat case_match; auto.
Qed.
End EventLoopFacts.

Lemma diagnosed_nil xkey (rows : list charcodemap_t) :
  (forall r, r ∈ rows -> row_matches xkey r = false) -> diagnosed xkey rows = [].
Proof.
  induction rows as [|r rows IH]; intros H; [done|].
  unfold diagnosed in *. simpl. rewrite (H r (list_elem_of_here _ _)).
  apply IH. intros r' Hin. apply H. by right.
Qed.

Lemma elem_of_diagnosed xkey (rows : list charcodemap_t) chr :
  chr ∈ rows -> row_matches xkey chr = true ->
  unknown_key chr ∈ diagnosed xkey rows.
Proof.
  intros Hin Hm. unfold diagnosed. apply list_elem_of_fmap_2.
  apply list_elem_of_In, filter_In. split; [by apply list_elem_of_In|done].
Qed.

(** The scan of a table without a matching and resolvable row only prints. *)
Lemma translate_no_target idx srv xkey (rows : list charcodemap_t) :
  (forall r, r ∈ rows -> row_matches xkey r = true -> idx !! key r = None) ->
  translate idx srv xkey rows = diagnosed xkey rows.
Proof.
  intros H. rewrite <- (app_nil_r rows) at 1.
  rewrite translate_through; [|done]. simpl. apply app_nil_r.
Qed.

(** The scan stops at the first matching and resolvable row. *)
Lemma translate_first_target idx srv xkey pre chr map post :
  (forall r, r ∈ pre -> row_matches xkey r = true -> idx !! key r = None) ->
  row_matches xkey chr = true -> idx !! key chr = Some map ->
  translate idx srv xkey (pre ++ chr :: post)
  = diagnosed xkey pre ++ send_translation srv xkey map.
Proof.
  intros Hpre Hm Hmap. rewrite translate_through; [|done].
  by rewrite (translate_hit idx srv xkey chr map post).
Qed.

Lemma land_lor_absorb a b : Z.land (Z.lor a b) b = b.
Proof.
  apply Z.bits_inj'. intros n _. rewrite Z.land_spec, Z.lor_spec.
  destruct (Z.testbit a n), (Z.testbit b n); done.
Qed.

(** The primary event carries the preserved bits of the observed state. *)
Lemma primary_event_preserved xkey map :
  Z.land (state (primary_event xkey map)) PRESERVED_MODS
  = Z.lor (Z.land (modmask map) PRESERVED_MODS)
          (Z.land (state xkey) PRESERVED_MODS).
Proof.
  unfold primary_event. simpl. rewrite to_uint_land.
  rewrite <- Z.land_assoc.
  replace (Z.land (Z.ones 32) PRESERVED_MODS) with PRESERVED_MODS by reflexivity.
  rewrite Z.land_lor_distr_l. f_equal.
  rewrite <- Z.land_assoc. by rewrite Z.land_diag.
Qed.

(** C10: an observed event gives rise to at most one primary event.  Either
    nothing is sent, or the original table splits at its first row that
    matches the event and has a preferred binding; the rows after it are not
    scanned (the calls are those made for the table cut after that row), and
    what is sent is at most two modifier events followed by the one primary
    event of that row, whatever further rows share its key and mask. *)
Theorem one_primary_event_per_observed_event
    (orig : list charcodemap_t) idx srv xevent :
  sent_events (handle_event orig idx srv xevent) = [] \/
  exists pre chr map post mods,
    orig = pre ++ chr :: post /\
    row_matches xevent chr = true /\
    idx !! key chr = Some map /\
    (forall r, r ∈ pre -> row_matches xevent r = true -> idx !! key r = None) /\
    handle_event orig idx srv xevent
      = handle_event (pre ++ [chr]) idx srv xevent /\
    sent_events (handle_event orig idx srv xevent)
      = mods ++ [(focused_window srv,
                  if pressed xevent then X.KeyPressMask else X.KeyReleaseMask,
                  primary_event (set_window (focused_window srv) xevent) map)] /\
    (length mods <= 2)%nat /\
    Forall (modifier_event srv) mods.
Proof.
  unfold handle_event.
  destruct (negb (type xevent =? X.KeyPress) && negb (type xevent =? X.KeyRelease));
    [by left|].
  destruct (send_event xevent); [by left|].
  destruct (first_target idx xevent orig)
    as [Hnone|(pre & chr & map & post & -> & Hm & Hmap & Hpre)].
  - left. rewrite translate_no_target; [|done]. simpl.
    apply sent_events_diagnosed.
  - right.
    destruct (sent_events_send_translation srv xevent map)
      as (mods & Hsent & Hlen & Hmods).
    exists pre, chr, map, post, mods.
    rewrite !(translate_first_target idx srv xevent pre chr map); [|done..].
    repeat split; try done.
    simpl. by rewrite sent_events_app, sent_events_diagnosed, Hsent.
Qed.

(** C6: when the observed event has the Control bit set and is translated,
    the primary event (the last event sent for it) has the Control bit set
    as well, whatever the modifier mask of the target binding. *)
Theorem control_bit_preserved (orig : list charcodemap_t) idx srv xevent w m e :
  Z.land (state xevent) X.ControlMask = X.ControlMask ->
  last (sent_events (handle_event orig idx srv xevent)) = Some (w, m, e) ->
  Z.land (state e) X.ControlMask = Z.land (state xevent) X.ControlMask.
Proof.
  intros Hctrl Hlast.
  assert (exists map, e = primary_event (set_window (focused_window srv) xevent) map)
    as [map ->].
  { destruct (handle_event_sent orig idx srv xevent) as [E|E];
      rewrite E in Hlast; [done|].
    destruct (first_target idx xevent orig)
      as [Hnone|(pre & chr & map & post & -> & Hm & Hmap & Hpre)].
    - rewrite translate_no_target, sent_events_diagnosed in Hlast; done.
    - rewrite (translate_first_target idx srv xevent pre chr map) in Hlast;
        [|done..].
      destruct (sent_events_send_translation srv xevent map)
        as (mods & Hsent & _).
      rewrite sent_events_app, sent_events_diagnosed, Hsent in Hlast.
      simpl in Hlast. rewrite last_snoc in Hlast.
      injection Hlast as _ _ <-. by exists map. }
  pose proof (primary_event_preserved
                (set_window (focused_window srv) xevent) map) as H.
  unfold PRESERVED_MODS in H. rewrite H. simpl. rewrite Hctrl.
  rewrite <- (Z.land_diag X.ControlMask) at 2.
  rewrite <- Z.land_lor_distr_l. apply land_lor_absorb.
Qed.

Lemma control_bit_preserved_witness :
  Z.land (state (KeyEvent X.KeyPress false 77 1000 4 52)) X.ControlMask
  = Z.land (state (KeyEvent X.KeyPress false 5 1000 5 18)) X.ControlMask.
Proof.
  apply (control_bit_preserved [e_acute_orig] e_acute_index a_server
           (KeyEvent X.KeyPress false 5 1000 5 18) 77 X.KeyPressMask
           (KeyEvent X.KeyPress false 77 1000 4 52)).
  - reflexivity.
  - vm_compute. reflexivity.
Defined.

(** C5, as stated, fails: the observed event matches a row whose character
    has no preferred binding, the diagnostic is printed, and yet the scan
    goes on to the next matching row and sends its translation. *)
Lemma unknown_key_is_not_always_dropped :
  row_matches (KeyEvent X.KeyPress false 5 1000 0 38) alpha_orig = true /\
  build_map_by_char iscntrl_C [a_new] !! key alpha_orig = None /\
  handle_event [alpha_orig; a_orig] (build_map_by_char iscntrl_C [a_new])
    a_server (KeyEvent X.KeyPress false 5 1000 0 38)
  = [ XAllowEvents X.SyncKeyboard 1000;
      unknown_key alpha_orig;
      XSendEvent 77 true X.KeyPressMask (KeyEvent X.KeyPress false 77 1000 0 24) ].
Proof. repeat split; vm_compute; reflexivity. Qed.

(** C5, amended: for an observed key event that is not marked as sent by a
    client, if the original table has a row matching it and none of the
    matching rows has a preferred binding for its character, then the
    diagnostic is printed for that row (for each matching row, in table
    order) and no event is sent. *)
Theorem unknown_key_dropped (orig : list charcodemap_t) idx srv xevent chr :
  type xevent = X.KeyPress \/ type xevent = X.KeyRelease ->
  send_event xevent = false ->
  chr ∈ orig ->
  row_matches xevent chr = true ->
  (forall r, r ∈ orig -> row_matches xevent r = true -> idx !! key r = None) ->
  handle_event orig idx srv xevent
    = XAllowEvents X.SyncKeyboard (time xevent)
        :: (unknown_key <$> List.filter (row_matches xevent) orig) /\
  unknown_key chr ∈ handle_event orig idx srv xevent /\
  sent_events (handle_event orig idx srv xevent) = [].
Proof.
  intros Htype Hsend Hin Hm Hnone.
  assert (handle_event orig idx srv xevent
          = XAllowEvents X.SyncKeyboard (time xevent) :: diagnosed xevent orig)
    as E.
  { unfold handle_event. rewrite Hsend, translate_no_target; [|done].
    destruct Htype as [-> | ->]; reflexivity. }
  rewrite E. repeat split.
  - right. by apply elem_of_diagnosed.
  - simpl. apply sent_events_diagnosed.
Qed.

Lemma unknown_key_dropped_witness :
  handle_event [alpha_orig; e_acute_orig] e_acute_index a_server
    (KeyEvent X.KeyRelease false 5 1000 4 38)
  = XAllowEvents X.SyncKeyboard 1000
      :: (unknown_key <$>
            List.filter (row_matches (KeyEvent X.KeyRelease false 5 1000 4 38))
              [alpha_orig; e_acute_orig]) /\
  unknown_key alpha_orig
    ∈ handle_event [alpha_orig; e_acute_orig] e_acute_index a_server
        (KeyEvent X.KeyRelease false 5 1000 4 38) /\
  sent_events (handle_event [alpha_orig; e_acute_orig] e_acute_index a_server
                 (KeyEvent X.KeyRelease false 5 1000 4 38)) = [].
Proof.
  apply (unknown_key_dropped [alpha_orig; e_acute_orig] e_acute_index a_server
           (KeyEvent X.KeyRelease false 5 1000 4 38) alpha_orig).
  - right. reflexivity.
  - reflexivity.
  - apply list_elem_of_here.
  - vm_compute. reflexivity.
  - intros r Hin Hm.
    apply elem_of_cons in Hin as [-> | Hin]; [vm_compute; reflexivity|].
    apply elem_of_cons in Hin as [-> | Hin]; [discriminate Hm|].
    by apply elem_of_nil in Hin.
Defined.

(** C2, as stated, fails: with the given row as the original table and the
    given preferred binding, the key press on key [0x34] without modifier
    matches no original row; the keyboard is thawed and nothing is sent. *)
Lemma new_layout_key_press_is_not_translated :
  e_acute_index !! key e_acute_orig = Some e_acute_new /\
  handle_event [e_acute_orig] e_acute_index a_server
    (KeyEvent X.KeyPress false 5 1000 0 52)
  = [XAllowEvents X.SyncKeyboard 1000] /\
  sent_events (handle_event [e_acute_orig] e_acute_index a_server
                 (KeyEvent X.KeyPress false 5 1000 0 52)) = [].
Proof. repeat split; vm_compute; reflexivity. Qed.

(** The same holds for every original table and every index: for a key
    press observed with an empty modifier state, a modifier event that is
    sent ahead of the primary event is a key press, never a key release. *)
Lemma unmodified_press_sends_no_release
    (orig : list charcodemap_t) idx srv xevent w1 m1 e1 s2 :
  type xevent = X.KeyPress ->
  state xevent = 0 ->
  sent_events (handle_event orig idx srv xevent) = [(w1, m1, e1); s2] ->
  m1 = X.KeyPressMask /\ type e1 = X.KeyPress.
Proof.
  intros Htype Hstate Hsent.
  destruct (handle_event_sent orig idx srv xevent) as [E|E];
    rewrite E in Hsent; [done|].
  destruct (first_target idx xevent orig)
    as [Hnone|(pre & chr & map & post & -> & Hm & Hmap & Hpre)].
  { by rewrite translate_no_target, sent_events_diagnosed in Hsent. }
  rewrite (translate_first_target idx srv xevent pre chr map) in Hsent;
    [|done..].
  rewrite sent_events_app, sent_events_diagnosed in Hsent.
  unfold send_translation, reconcile_shift, reconcile_level3, pressed in Hsent.
  cbn [app state type set_window] in Hsent.
  rewrite Htype, Hstate, !Z.land_0_l in Hsent.
  change (lnot_int (X.KeyPress =? X.KeyPress)) with 0 in Hsent.
  rewrite !Z.lxor_0_r in Hsent. unfold truthy, X.Mod5Mask in Hsent.
  destruct (Z.eqb_spec 0 (Z.land (modmask map) X.ShiftMask)) as [Hs|Hs];
    destruct (Z.eqb_spec 0 (Z.land (modmask map) 128)) as [Hl|Hl];
    destruct (Z.eqb_spec (Z.land (modmask map) X.ShiftMask) 0) as [Hs'|Hs'];
    destruct (Z.eqb_spec (Z.land (modmask map) 128) 0) as [Hl'|Hl'];
    try congruence; cbn in Hsent; by simplify_eq.
Qed.

(** C2, amended: with the row for e-acute (key [0x12], Shift) in the original
    table, no earlier row of the table on that key with that mask, and a
    preferred new binding on key [0x34] without modifier, an observed press
    of key [0x12] with state [ShiftMask] produces exactly a Shift key release
    followed by a press of key [0x34] with an empty modifier state, both
    sent to the focused window. *)
Theorem e_acute_press_translated
    (pre post : list charcodemap_t) idx srv xevent map :
  type xevent = X.KeyPress ->
  send_event xevent = false ->
  keycode xevent = 18 ->
  state xevent = X.ShiftMask ->
  (forall r, r ∈ pre -> row_matches xevent r = false) ->
  idx !! key e_acute_orig = Some map ->
  code map = 52 ->
  modmask map = 0 ->
  sent_events (handle_event (pre ++ e_acute_orig :: post) idx srv xevent)
  = [ (focused_window srv, X.KeyReleaseMask,
       KeyEvent X.KeyRelease false (focused_window srv) (time xevent) 0
         (Shift_L_keycode srv));
      (focused_window srv, X.KeyPressMask,
       KeyEvent X.KeyPress false (focused_window srv) (time xevent) 0 52) ].
Proof.
  intros Htype Hsend Hcode Hstate Hpre Hmap Hc Hm.
  destruct xevent as [ty se w t st kc]. simpl in *. subst.
  destruct map as [k c s g mm]. simpl in *. subst.
  unfold handle_event. simpl.
  rewrite (translate_first_target idx srv _ pre e_acute_orig
             (Charcodemap k 52 s g 0) post); [|by intros r Hin; rewrite Hpre|done..].
  rewrite diagnosed_nil; [|done].
  reflexivity.
Qed.

Lemma e_acute_press_translated_witness :
  sent_events (handle_event ([a_orig] ++ e_acute_orig :: [alpha_orig])
                 e_acute_index a_server (KeyEvent X.KeyPress false 5 1000 1 18))
  = [ (77, X.KeyReleaseMask, KeyEvent X.KeyRelease false 77 1000 0 50);
      (77, X.KeyPressMask, KeyEvent X.KeyPress false 77 1000 0 52) ].
Proof.
  apply (e_acute_press_translated [a_orig] [alpha_orig] e_acute_index a_server
           (KeyEvent X.KeyPress false 5 1000 1 18) e_acute_new);
    try reflexivity.
  intros r Hin. apply elem_of_cons in Hin as [-> | Hin]; [reflexivity|].
  by apply elem_of_nil in Hin.
Defined.

(** ** Start-up and termination *)

Lemma bind_returned {A B} (c : M A) (f : A -> M B) p status p' :
  c p = (Returned status, p') -> (c ≫= f) p = (Returned status, p').
Proof. intros H. unfold mbind, M_bind. by rewrite H. Qed.

Lemma bind_go {A B} (c : M A) (f : A -> M B) p a p' :
  c p = (Go a, p') -> (c ≫= f) p = f a p'.
Proof. intros H. unfold mbind, M_bind. by rewrite H. Qed.

(** Runs a computation of [M] whose calls are known. *)
Ltac run_M :=
  unfold mbind, M_bind, mret, M_ret, spawn, do, emit, return_, atexit, signal,
    set_orig_layout, get_charcodes, add_trace;
  simpl; rewrite <- ?app_assoc; simpl.

Section StartupFacts.
Variable HELP_SEE_WINDOW_STACK : string.
Variable iscntrl : Z -> bool.
Variable inp : inputs.

Local Abbreviation usage_text := (usage HELP_SEE_WINDOW_STACK).
Local Abbreviation parse := (parse_options HELP_SEE_WINDOW_STACK inp).

(** Option parsing leaves the process alone unless it returns. *)
Lemma parse_options_cases results window_arg p :
  (exists w, parse results window_arg p = (Go w, p)) \/
  (exists status t,
      parse results window_arg p = (Returned status, add_trace p t) /\
      executed t = [] /\ refreshes t = 0%nat).
Proof.
  revert window_arg. induction results as [|[c optarg] rest IH]; intros w.
  { left. by exists w. }
  simpl. destruct (c =? -1); [left; by exists w|].
  destruct (c =? opt_window); [apply IH|].
  right. destruct (c =? opt_help).
  - exists EXIT_SUCCESS, [fprintf stdout usage_text [arg_string (cmd inp)];
                          consume_args (argc inp)].
    split; [by run_M|done].
  - exists EXIT_FAILURE, [fprintf stderr usage_text [arg_string (cmd inp)]].
    split; [by run_M|done].
Qed.

Lemma parse_options_help ws optarg rest window_arg p :
  Forall (fun r => r.1 = opt_window) ws ->
  parse (ws ++ (opt_help, optarg) :: rest) window_arg p
  = (Returned EXIT_SUCCESS,
     add_trace p [fprintf stdout usage_text [arg_string (cmd inp)];
                  consume_args (argc inp)]).
Proof.
  intros Hws. revert window_arg.
  induction Hws as [|[c o] ws Hc _ IH]; intros w.
  - simpl. by run_M.
  - simpl in *. subst c. simpl. apply IH.
Qed.

Lemma parse_options_invalid ws c optarg rest window_arg p :
  Forall (fun r => r.1 = opt_window) ws ->
  c <> -1 -> c <> opt_window -> c <> opt_help ->
  parse (ws ++ (c, optarg) :: rest) window_arg p
  = (Returned EXIT_FAILURE,
     add_trace p [fprintf stderr usage_text [arg_string (cmd inp)]]).
Proof.
  intros Hws H1 H2 H3. revert window_arg.
  induction Hws as [|[c' o] ws Hc _ IH]; intros w.
  - simpl.
    destruct (Z.eqb_spec c (-1)); [done|].
    destruct (Z.eqb_spec c opt_window); [done|].
    destruct (Z.eqb_spec c opt_help); [done|].
    by run_M.
  - simpl in *. subst c'. simpl. apply IH.
Qed.

Lemma startup_go cc0 w :
  parse (getopt_results inp) None (initial_process cc0)
    = (Go w, initial_process cc0) ->
  startup HELP_SEE_WINDOW_STACK iscntrl inp (initial_process cc0)
  = (Go (kept_charcodes inp, built_index iscntrl inp),
     Process (vardefs_layout inp) [restore_layout_hook] [SIGINT; SIGTERM]
       (new_charcodes inp) (startup_trace iscntrl inp)).
Proof.
  intros Hparse. unfold startup. rewrite (bind_go _ _ _ _ _ Hparse).
  unfold startup_trace.
  change [XSync; XSetErrorHandler orig_error_handler]
    with ([XSync] ++ [XSetErrorHandler orig_error_handler]).
  rewrite !app_assoc. reflexivity.
Qed.

End StartupFacts.

Lemma executed_app t1 t2 : executed (t1 ++ t2) = executed t1 ++ executed t2.
Proof. unfold executed. apply flat_map_app. Qed.

Lemma refreshes_app t1 t2 : refreshes (t1 ++ t2) = (refreshes t1 + refreshes t2)%nat.
Proof. unfold refreshes. by rewrite flat_map_app, length_app. Qed.

Lemma loop_calls_quiet t :
  forallb loop_call t = true ->
  executed t = [] /\ refreshes t = 0%nat /\ grab_set t = [].
Proof.
  induction t as [|c t IH]; [done|]. simpl. intros H.
  apply andb_prop in H as [Hc Ht]. destruct (IH Ht) as (E & R & G).
  unfold refreshes in *. destruct c; try discriminate Hc; simpl; by rewrite ?E, ?R, ?G.
Qed.

Lemma forallb_app_2 {A} (f : A -> bool) l1 l2 :
  forallb f l1 = true -> forallb f l2 = true -> forallb f (l1 ++ l2) = true.
Proof. intros H1 H2. rewrite forallb_app. by rewrite H1, H2. Qed.

Lemma send_translation_loop_calls srv xkey map :
  forallb loop_call (send_translation srv xkey map) = true.
Proof.
  unfold send_translation, reconcile_shift, reconcile_level3.
  repeat case_match; simplify_eq; reflexivity.
Qed.

Lemma translate_loop_calls idx srv xkey rows :
  forallb loop_call (translate idx srv xkey rows) = true.
Proof.
  induction rows as [|chr rows IH]; [done|]. simpl.
  repeat case_match; try done. apply send_translation_loop_calls.
Qed.

Lemma handle_event_loop_calls orig idx srv xevent :
  forallb loop_call (handle_event orig idx srv xevent) = true.
Proof.
  unfold handle_event. repeat case_match; try done.
  simpl. apply translate_loop_calls.
Qed.

Lemma event_loop_loop_calls orig idx events :
  forallb loop_call (event_loop orig idx events) = true.
Proof.
  unfold event_loop. induction events as [|[srv xevent] events IH]; [done|].
  simpl. apply forallb_app_2; [apply handle_event_loop_calls|done].
Qed.

Section RunFacts.
Variable HELP_SEE_WINDOW_STACK : string.
Variable iscntrl : Z -> bool.
Variable inp : inputs.
Variable events : list (xserver * XKeyEvent).
Variable cc0 : list charcodemap_t.

Local Abbreviation run :=
  (cmd_fakemap HELP_SEE_WINDOW_STACK iscntrl inp events (initial_process cc0)).

(** A run either is in the event loop, or has returned from option parsing
    with nothing done but printing. *)
Lemma cmd_fakemap_cases :
  run = (Go (), looping iscntrl inp events) \/
  exists status t,
    run = (Returned status, add_trace (initial_process cc0) t) /\
    parse_options HELP_SEE_WINDOW_STACK inp (getopt_results inp) None
      (initial_process cc0)
    = (Returned status, add_trace (initial_process cc0) t) /\
    executed t = [] /\ refreshes t = 0%nat.
Proof.
  unfold cmd_fakemap.
  destruct (parse_options_cases HELP_SEE_WINDOW_STACK inp (getopt_results inp)
              None (initial_process cc0)) as [[w Hw]|(st & t & Ht & Hex & Hre)].
  - left.
    rewrite (bind_go _ _ _ _ _ (startup_go HELP_SEE_WINDOW_STACK iscntrl inp cc0 w Hw)).
    reflexivity.
  - right. exists st, t. repeat split; try done.
    apply bind_returned. unfold startup. by apply bind_returned.
Qed.
End RunFacts.

Lemma grab_keys_quiet idx root orig :
  executed (grab_keys idx root orig) = [] /\
  refreshes (grab_keys idx root orig) = 0%nat.
Proof.
  unfold grab_keys. induction orig as [|chr orig [IHe IHr]]; [done|].
  cbn [flat_map]. rewrite executed_app, refreshes_app, IHe, IHr.
  unfold grab_row. repeat case_match; done.
Qed.

(** A whole start-up on the sample server, call by call: the letter a moved
    from key 38 to key 24 and e-acute from key 18 with Shift to key 52, so
    both original rows are grabbed, each with and without Control. *)
Example sample_startup_trace :
  trace (looping iscntrl_C sample_inputs [])
  = [ consume_args 1; setlocale_LC_CTYPE; XkbRF_GetNamesProp;
      atexit_restore_layout; signal_exit_success SIGTERM;
      signal_exit_success SIGINT;
      execlp "setxkbmap" ["setxkbmap"; "-variant"; "nodeadkeys"]; waitpid;
      xdo_new_with_opened_display; xdo_free;
      execlp "setxkbmap" ["-layout"; "us"; "-variant"; "basic"]; waitpid;
      execlp "xmodmap"
        ["xmodmap"; "-e"; "remove mod1 = Alt_R";
         "-e"; "keysym Alt_R = ISO_Level3_Shift";
         "-e"; "add mod5 = ISO_Level3_Shift"]; waitpid;
      XkbRF_GetNamesProp;
      xdo_new_with_opened_display; xdo_free;
      XSetErrorHandler ignore_already_grabbed; XSync;
      XGrabKey 38 0 1 false X.GrabModeAsync X.GrabModeSync;
      XGrabKey 38 4 1 false X.GrabModeAsync X.GrabModeSync;
      XGrabKey 18 1 1 false X.GrabModeAsync X.GrabModeSync;
      XGrabKey 18 5 1 false X.GrabModeAsync X.GrabModeSync;
      XSync; XSetErrorHandler orig_error_handler ].
Proof. vm_compute. reflexivity. Qed.

(** C4, as stated, fails: in a run of the command the dead-key tool has
    already been run when the keymap is refreshed for the first time, and
    the table kept as the original one is the table of the layout without
    dead keys, not the table the command found. *)
Lemma first_refresh_follows_dead_key_removal :
  exists idx p,
    startup EmptyString iscntrl_C sample_inputs
      (initial_process (sample_charcodes []))
    = (Go (sample_charcodes [nodeadkeys_tool], idx), p) /\
    executed (before_first_refresh (trace p)) = [nodeadkeys_tool] /\
    sample_charcodes [nodeadkeys_tool] <> sample_charcodes [].
Proof.
  eexists _, _. split; [|split].
  - by apply (startup_go EmptyString iscntrl_C sample_inputs _ None).
  - reflexivity.
  - discriminate.
Qed.

(** C4, amended: a run that enters the event loop has refreshed the keymap
    exactly twice, both times before the loop.  The first refresh comes
    after the tool that disables the dead keys has run, and before the two
    tools that install the target layout; its table, the server's table once
    the dead keys are off, is the one kept for translation.  The second
    refresh comes after those two tools, and the index is built from its
    table. *)
Theorem keymap_refreshed_twice HELP_SEE_WINDOW_STACK iscntrl inp events cc0 p :
  cmd_fakemap HELP_SEE_WINDOW_STACK iscntrl inp events (initial_process cc0)
    = (Go (), p) ->
  exists t1 t2 t3,
    trace p
    = t1 ++ xdo_new_with_opened_display
         :: t2 ++ xdo_new_with_opened_display
         :: t3 ++ event_loop
                    (server_charcodes inp (executed t1))
                    (build_map_by_char iscntrl
                       (server_charcodes inp (executed t1 ++ executed t2)))
                    events /\
    refreshes (trace p) = 2%nat /\
    before_first_refresh (trace p) = t1 /\
    executed t1 = [nodeadkeys_tool] /\
    executed t2 = [us_basic_tool; xmodmap_tool] /\
    executed t3 = [] /\
    refreshes t1 = 0%nat /\ refreshes t2 = 0%nat /\ refreshes t3 = 0%nat.
Proof.
  intros Hrun.
  destruct (cmd_fakemap_cases HELP_SEE_WINDOW_STACK iscntrl inp events cc0)
    as [E|(st & t & E & _)]; rewrite E in Hrun; [|discriminate Hrun].
  injection Hrun as <-.
  destruct (grab_keys_quiet (built_index iscntrl inp) (root inp)
              (kept_charcodes inp)) as [Hge Hgr].
  destruct (loop_calls_quiet _
              (event_loop_loop_calls (kept_charcodes inp)
                 (built_index iscntrl inp) events)) as (Hle & Hlr & _).
  exists [ consume_args (optind inp); setlocale_LC_CTYPE; XkbRF_GetNamesProp;
           atexit_restore_layout; signal_exit_success SIGTERM;
           signal_exit_success SIGINT;
           execlp nodeadkeys_tool.1 nodeadkeys_tool.2; waitpid ],
         [ xdo_free;
           execlp us_basic_tool.1 us_basic_tool.2; waitpid;
           execlp xmodmap_tool.1 xmodmap_tool.2; waitpid;
           XkbRF_GetNamesProp ],
         ([ xdo_free; XSetErrorHandler ignore_already_grabbed; XSync ]
            ++ grab_keys (built_index iscntrl inp) (root inp) (kept_charcodes inp)
            ++ [ XSync; XSetErrorHandler orig_error_handler ]).
  unfold looping, startup_trace. cbn [trace].
  repeat split; try reflexivity.
  - rewrite !refreshes_app, Hlr, Hgr. reflexivity.
  - rewrite !executed_app, Hge. reflexivity.
  - rewrite !refreshes_app, Hgr. reflexivity.
Qed.

Lemma keymap_refreshed_twice_witness :
  exists t1 t2 t3,
    trace (looping iscntrl_C sample_inputs [])
    = t1 ++ xdo_new_with_opened_display
         :: t2 ++ xdo_new_with_opened_display
         :: t3 ++ event_loop
                    (server_charcodes sample_inputs (executed t1))
                    (build_map_by_char iscntrl_C
                       (server_charcodes sample_inputs
                          (executed t1 ++ executed t2)))
                    [] /\
    refreshes (trace (looping iscntrl_C sample_inputs [])) = 2%nat /\
    before_first_refresh (trace (looping iscntrl_C sample_inputs [])) = t1 /\
    executed t1 = [nodeadkeys_tool] /\
    executed t2 = [us_basic_tool; xmodmap_tool] /\
    executed t3 = [] /\
    refreshes t1 = 0%nat /\ refreshes t2 = 0%nat /\ refreshes t3 = 0%nat.
Proof.
  apply (keymap_refreshed_twice EmptyString iscntrl_C sample_inputs []
           (sample_charcodes []) (looping iscntrl_C sample_inputs [])).
  vm_compute. reflexivity.
Defined.

(** C8: the layout is restored at most once.  When the process ends (by
    [exit], or by one of the two signals once their handler is installed)
    after a run that captured a layout, the layout tool is invoked exactly
    once, and the captured layout name is the only argument it sees
    ([-layout] stands in the slot of the program name); after a run that
    captured no layout, and in a process that ends before the command has
    captured anything, the tool is not invoked and nothing is done. *)
Theorem layout_restored_at_most_once
    HELP_SEE_WINDOW_STACK iscntrl inp events cc0 :
  let run :=
    cmd_fakemap HELP_SEE_WINDOW_STACK iscntrl inp events (initial_process cc0) in
  tool_invocations (exit run.2)
  = match run.1, vardefs_layout inp with
    | Go _, Some layout => [("setxkbmap", [layout])]
    | _, _ => []
    end /\
  (vardefs_layout inp = None -> exit run.2 = []) /\
  (forall status, run.1 = Returned status -> exit run.2 = []) /\
  (forall u, run.1 = Go u ->
             exit run.2 = restore_layout run.2 /\
             orig_layout run.2 = vardefs_layout inp /\
             deliver SIGTERM run.2 = exit run.2 /\
             deliver SIGINT run.2 = exit run.2) /\
  exit (initial_process cc0) = [] /\
  deliver SIGTERM (initial_process cc0) = [] /\
  deliver SIGINT (initial_process cc0) = [].
Proof.
  intros run. subst run.
  destruct (cmd_fakemap_cases HELP_SEE_WINDOW_STACK iscntrl inp events cc0)
    as [E|(st & t & E & _)]; rewrite E; cbn [fst snd].
  - unfold looping, exit, restore_layout, deliver. cbn.
    destruct (vardefs_layout inp) as [layout|] eqn:Hl; repeat split; try done.
  - repeat split; try done.
Qed.

(** C9: option parsing does not touch the layout.  When the first result of
    [getopt_long_only] that is not [--window] is [--help], the command
    prints the usage text, with its own name in it, to the standard output,
    consumes its arguments and returns [EXIT_SUCCESS]; when it is a flag the
    command does not know (any result but the end of the options,
    [--window] and [--help]), the command prints the usage text to the
    standard error and returns [EXIT_FAILURE], which is not zero.  In both
    cases no tool is run, the keymap is not refreshed, no exit function is
    registered and no layout is captured. *)
Theorem option_parsing_leaves_layout_alone
    HELP_SEE_WINDOW_STACK iscntrl inp events cc0 ws c optarg rest :
  getopt_results inp = ws ++ (c, optarg) :: rest ->
  Forall (fun r => r.1 = opt_window) ws ->
  c <> -1 ->
  c <> opt_window ->
  let run :=
    cmd_fakemap HELP_SEE_WINDOW_STACK iscntrl inp events (initial_process cc0) in
  (c = opt_help ->
   run = (Returned EXIT_SUCCESS,
          Process None [] [] cc0
            [fprintf stdout (usage HELP_SEE_WINDOW_STACK) [arg_string (cmd inp)];
             consume_args (argc inp)])) /\
  (c <> opt_help ->
   run = (Returned EXIT_FAILURE,
          Process None [] [] cc0
            [fprintf stderr (usage HELP_SEE_WINDOW_STACK) [arg_string (cmd inp)]])) /\
  executed (trace run.2) = [] /\
  refreshes (trace run.2) = 0%nat /\
  exit run.2 = [] /\
  EXIT_SUCCESS = 0 /\
  EXIT_FAILURE <> 0 /\
  render_s (usage HELP_SEE_WINDOW_STACK) (cmd inp)
  = "Usage: " +:+ cmd inp +:+ " [--window windowid]"
    +:+ "--window <windowid>    - specify a window to send keys to" +:+ nl
    +:+ "-h, --help             - show this help output" +:+ nl
    +:+ HELP_SEE_WINDOW_STACK.
Proof.
  intros Hres Hws Hend Hwin run. subst run.
  assert (forall status t,
             parse_options HELP_SEE_WINDOW_STACK inp (getopt_results inp) None
               (initial_process cc0)
             = (Returned status, add_trace (initial_process cc0) t) ->
             cmd_fakemap HELP_SEE_WINDOW_STACK iscntrl inp events
               (initial_process cc0)
             = (Returned status, add_trace (initial_process cc0) t)) as Hret.
  { intros status t H. unfold cmd_fakemap. apply bind_returned.
    unfold startup. by apply bind_returned. }
  destruct (decide (c = opt_help)) as [->|Hhelp].
  - rewrite (Hret _ _ (eq_trans (f_equal (fun r => parse_options _ inp r None _) Hres)
                         (parse_options_help HELP_SEE_WINDOW_STACK inp ws optarg
                            rest None (initial_process cc0) Hws))).
    repeat split; try done.
  - rewrite (Hret _ _ (eq_trans (f_equal (fun r => parse_options _ inp r None _) Hres)
                         (parse_options_invalid HELP_SEE_WINDOW_STACK inp ws c
                            optarg rest None (initial_process cc0)
                            Hws Hend Hwin Hhelp))).
    repeat split; try done.
Qed.

Lemma option_parsing_leaves_layout_alone_witness :
  cmd_fakemap EmptyString iscntrl_C help_inputs [] (initial_process [])
  = (Returned EXIT_SUCCESS,
     Process None [] [] []
       [fprintf stdout (usage EmptyString) [arg_string "fakemap"];
        consume_args 4]) /\
  cmd_fakemap EmptyString iscntrl_C bogus_inputs [] (initial_process [])
  = (Returned EXIT_FAILURE,
     Process None [] [] []
       [fprintf stderr (usage EmptyString) [arg_string "fakemap"]]).
Proof.
  split.
  - apply (option_parsing_leaves_layout_alone EmptyString iscntrl_C help_inputs
             [] [] [(opt_window, Some "42")] opt_help None []);
      [reflexivity | by repeat constructor | discriminate | discriminate
      | reflexivity].
  - apply (option_parsing_leaves_layout_alone EmptyString iscntrl_C bogus_inputs
             [] [] [] 63 None []);
      [reflexivity | constructor | discriminate | discriminate | discriminate].
Defined.

Lemma layout_restored_at_most_once_witness :
  tool_invocations
    (exit (cmd_fakemap EmptyString iscntrl_C sample_inputs []
             (initial_process [])).2)
  = [("setxkbmap", ["de"])] /\
  exit (cmd_fakemap EmptyString iscntrl_C help_inputs []
          (initial_process [])).2 = [].
Proof.
  split.
  - apply (proj1 (layout_restored_at_most_once EmptyString iscntrl_C
                    sample_inputs [] [])).
  - apply (proj1 (proj2 (proj2 (layout_restored_at_most_once EmptyString
                                  iscntrl_C help_inputs [] [])))
             EXIT_SUCCESS).
    reflexivity.
Defined.

(** * Further properties *)

(** ** The preferred-binding index, row by row *)

Section IndexFacts.
Variable iscntrl : Z -> bool.

(** What a turn of the loop does to the slot of a character. *)
Lemma prefer_lookup_cases acc x c :
  prefer iscntrl acc x !! c = acc !! c \/
  (key x = c /\ iscntrl c = false /\ prefer iscntrl acc x !! c = Some x).
Proof.
  destruct (decide (key x = c)) as [<-|Hne]; [|left; by apply prefer_other].
  unfold prefer. destruct (iscntrl (key x)) eqn:Hc; [by left|].
  repeat case_match; auto; right; by rewrite lookup_insert_eq.
Qed.

Lemma prefer_is_Some acc x c :
  is_Some (acc !! c) -> is_Some (prefer iscntrl acc x !! c).
Proof.
  intros H. destruct (prefer_lookup_cases acc x c) as [->|(_ & _ & ->)]; eauto.
Qed.

Lemma foldl_prefer_is_Some l : forall acc c,
  is_Some (acc !! c) -> is_Some (foldl (prefer iscntrl) acc l !! c).
Proof.
  induction l as [|x l IH]; intros acc c H; [done|].
  simpl. apply IH. by apply prefer_is_Some.
Qed.

Lemma foldl_prefer_sound l : forall acc c r,
  foldl (prefer iscntrl) acc l !! c = Some r ->
  acc !! c = Some r \/ (r ∈ l /\ key r = c /\ iscntrl c = false).
Proof.
  induction l as [|x l IH]; intros acc c r H; [by left|].
  simpl in H. destruct (IH _ _ _ H) as [Hacc|(Hin & Hk & Hc)].
  - destruct (prefer_lookup_cases acc x c) as [E|(Hk & Hc & E)].
    + left. by rewrite <- E.
    + right. rewrite E in Hacc. injection Hacc as <-.
      split; [by left|done].
  - right. split; [by right|done].
Qed.
End IndexFacts.

(** X1: a control character never gets into the index, not even when a row
    for it is the only row of the table for that character. *)
Theorem index_excludes_control iscntrl (l : list charcodemap_t) c :
  iscntrl c = true ->
  build_map_by_char iscntrl l !! c = None.
Proof.
  intros Hc. destruct (build_map_by_char iscntrl l !! c) as [r|] eqn:E; [|done].
  unfold build_map_by_char in E.
  destruct (foldl_prefer_sound iscntrl l ∅ c r E) as [H|(_ & _ & H)].
  - by rewrite lookup_empty in H.
  - congruence.
Qed.

Lemma index_excludes_control_witness :
  build_map_by_char iscntrl_C [Charcodemap 13 36 65293 0 0; a_orig] !! 13 = None.
Proof.
  apply (index_excludes_control iscntrl_C
           [Charcodemap 13 36 65293 0 0; a_orig] 13).
  reflexivity.
Defined.

(** X2: an entry of the index is a row of the table it was built from, it is
    filed under its own character, and that character is not a control
    character. *)
Theorem index_entry_is_table_row iscntrl (l : list charcodemap_t) c r :
  build_map_by_char iscntrl l !! c = Some r ->
  r ∈ l /\ key r = c /\ iscntrl c = false.
Proof.
  intros E. unfold build_map_by_char in E.
  destruct (foldl_prefer_sound iscntrl l ∅ c r E) as [H|H]; [|done].
  by rewrite lookup_empty in H.
Qed.

Lemma index_entry_is_table_row_witness :
  e_acute_new ∈ [a_new; e_acute_new] /\ key e_acute_new = 233 /\
  iscntrl_C 233 = false.
Proof.
  apply (index_entry_is_table_row iscntrl_C [a_new; e_acute_new] 233 e_acute_new).
  vm_compute. reflexivity.
Defined.

(** X3: every character of the table that is not a control character has
    an entry in the index. *)
Theorem index_covers_printable iscntrl (l : list charcodemap_t) r :
  r ∈ l ->
  iscntrl (key r) = false ->
  is_Some (build_map_by_char iscntrl l !! key r).
Proof.
  intros Hin Hc. unfold build_map_by_char. generalize (∅ : gmap Z charcodemap_t).
  induction l as [|x l IH]; intros acc; [by apply elem_of_nil in Hin|].
  simpl. apply elem_of_cons in Hin as [->|Hin]; [|by apply IH].
  apply foldl_prefer_is_Some.
  unfold prefer. rewrite Hc.
  repeat case_match; eauto; rewrite lookup_insert_eq; eauto.
Qed.

Lemma index_covers_printable_witness :
  is_Some (build_map_by_char iscntrl_C [a_mid_plain; b_shifted; a_low_shifted]
             !! key a_low_shifted).
Proof.
  apply (index_covers_printable iscntrl_C
           [a_mid_plain; b_shifted; a_low_shifted] a_low_shifted).
  - apply list_elem_of_further, list_elem_of_further, list_elem_of_here.
  - reflexivity.
Defined.

Section IndexOrder.
Variable iscntrl : Z -> bool.

Lemma build_snoc (l : list charcodemap_t) x :
  build_map_by_char iscntrl (l ++ [x])
  = prefer iscntrl (build_map_by_char iscntrl l) x.
Proof. unfold build_map_by_char. by rewrite foldl_app. Qed.

Lemma build_sound (l : list charcodemap_t) c r :
  build_map_by_char iscntrl l !! c = Some r ->
  r ∈ l /\ key r = c /\ iscntrl c = false.
Proof.
  intros E. unfold build_map_by_char in E.
  destruct (foldl_prefer_sound iscntrl l ∅ c r E) as [H|H]; [|done].
  by rewrite lookup_empty in H.
Qed.

Lemma build_complete (l : list charcodemap_t) r :
  r ∈ l -> iscntrl (key r) = false ->
  is_Some (build_map_by_char iscntrl l !! key r).
Proof.
  intros Hin Hc. unfold build_map_by_char. generalize (∅ : gmap Z charcodemap_t).
  induction l as [|x l IH]; intros acc; [by apply elem_of_nil in Hin|].
  simpl. apply elem_of_cons in Hin as [->|Hin]; [|by apply IH].
  apply foldl_prefer_is_Some.
  unfold prefer. rewrite Hc.
  repeat case_match; eauto; rewrite lookup_insert_eq; eauto.
Qed.

(** The entry of a character is, against every row of the table for that
    character, either ahead on one criterion or level on both. *)
Lemma build_unbeaten (l : list charcodemap_t) : forall c cur x,
  build_map_by_char iscntrl l !! c = Some cur ->
  x ∈ l -> key x = c ->
  (symbol cur < symbol x \/ modmask cur < modmask x) \/
  (symbol cur <= symbol x /\ modmask cur <= modmask x).
Proof.
  induction l as [|x0 l IH] using rev_ind; intros c cur x E Hin Hk.
  { by apply elem_of_nil in Hin. }
  destruct (build_sound _ _ _ E) as (_ & _ & Hc).
  rewrite build_snoc in E.
  destruct (decide (key x0 = c)) as [Hk0|Hk0].
  - assert (x ∈ l -> is_Some (build_map_by_char iscntrl l !! c)) as Hsome.
    { intros Hl. rewrite <- Hk. apply build_complete; [done|]. by rewrite Hk. }
    unfold prefer in E. rewrite Hk0, Hc in E.
    apply elem_of_app in Hin as [Hin|Hin].
    + destruct (Hsome Hin) as [old Hold]. rewrite Hold in E.
      pose proof (IH c old x Hold Hin Hk) as Hok.
      destruct (Z.ltb_spec (symbol old) (symbol x0));
        [rewrite Hold in E; injection E as <-; done|].
      destruct (Z.ltb_spec (modmask old) (modmask x0));
        [rewrite Hold in E; injection E as <-; done|].
      rewrite lookup_insert_eq in E. injection E as <-. lia.
    + apply list_elem_of_singleton in Hin as ->.
      destruct (build_map_by_char iscntrl l !! c) as [old|] eqn:Hold.
      * destruct (Z.ltb_spec (symbol old) (symbol x0));
          [rewrite Hold in E; injection E as <-; lia|].
        destruct (Z.ltb_spec (modmask old) (modmask x0));
          [rewrite Hold in E; injection E as <-; lia|].
        rewrite lookup_insert_eq in E. injection E as <-. lia.
      * rewrite lookup_insert_eq in E. injection E as <-. lia.
  - rewrite prefer_other in E; [|done].
    apply elem_of_app in Hin as [Hin|Hin]; [by apply (IH c)|].
    apply list_elem_of_singleton in Hin as ->. done.
Qed.

(** The slot of a character is decided by the rows for that character. *)
Lemma foldl_prefer_local c (l : list charcodemap_t) : forall acc acc',
  acc !! c = acc' !! c ->
  foldl (prefer iscntrl) acc l !! c
  = foldl (prefer iscntrl) acc' (List.filter (fun r => key r =? c) l) !! c.
Proof.
  induction l as [|x l IH]; intros acc acc' H; [done|].
  simpl. destruct (Z.eqb_spec (key x) c) as [Hk|Hk].
  - simpl. apply IH. unfold prefer. rewrite Hk, H.
    repeat case_match; try done; try congruence; by rewrite !lookup_insert_eq.
  - apply IH. by rewrite prefer_other.
Qed.
End IndexOrder.

(** X4: no row of the table beats the entry chosen for its character: a row
    with a symbol and a mask that are both not above the entry's has the
    entry's symbol and mask. *)
Theorem index_entry_is_not_beaten iscntrl (l : list charcodemap_t) c cur x :
  build_map_by_char iscntrl l !! c = Some cur ->
  x ∈ l ->
  key x = c ->
  ~ beats x cur.
Proof.
  intros E Hin Hk (Hs & Hm & Hlt).
  destruct (build_unbeaten iscntrl l c cur x E Hin Hk); lia.
Qed.

Lemma index_entry_is_not_beaten_witness : ~ beats a_low_shifted a_mid_plain.
Proof.
  apply (index_entry_is_not_beaten iscntrl_C
           [a_mid_plain; a_low_shifted; a_high_plain] 97).
  - vm_compute. reflexivity.
  - apply list_elem_of_further, list_elem_of_here.
  - reflexivity.
Defined.

(** X5: ties go to the later row: the last row of a table takes the slot of
    its character when no earlier row for that character has a lower symbol
    or a lower mask, also when an earlier row has the same symbol and
    mask. *)
Theorem last_row_wins_ties iscntrl (l : list charcodemap_t) r :
  iscntrl (key r) = false ->
  (forall x, x ∈ l -> key x = key r ->
             symbol r <= symbol x /\ modmask r <= modmask x) ->
  build_map_by_char iscntrl (l ++ [r]) !! key r = Some r.
Proof.
  intros Hc Hl. rewrite build_snoc. apply prefer_takes; [done|].
  intros cur Hcur. destruct (build_sound iscntrl l _ _ Hcur) as (Hin & Hk & _).
  by apply Hl.
Qed.

Lemma last_row_wins_ties_witness :
  build_map_by_char iscntrl_C ([a_orig; b_plain] ++ [Charcodemap 97 40 97 1 0])
    !! 97 = Some (Charcodemap 97 40 97 1 0).
Proof.
  apply (last_row_wins_ties iscntrl_C [a_orig; b_plain]
           (Charcodemap 97 40 97 1 0)).
  - reflexivity.
  - intros x Hin Hk.
    apply elem_of_cons in Hin as [-> | Hin]; [vm_compute; split; discriminate|].
    apply elem_of_cons in Hin as [-> | Hin]; [discriminate Hk|].
    by apply elem_of_nil in Hin.
Defined.

(** X6: the entry of a character depends on the rows for that character
    only: the rows for other characters can be taken out of the table. *)
Theorem index_entry_depends_on_own_rows iscntrl (l : list charcodemap_t) c :
  build_map_by_char iscntrl l !! c
  = build_map_by_char iscntrl (List.filter (fun r => key r =? c) l) !! c.
Proof. unfold build_map_by_char. by apply foldl_prefer_local. Qed.

(** ** The key grabs, row by row *)

(** X7: every pair of the grab set comes from a row of the original table
    whose character has a preferred binding on another key or with another
    mask; the pair is that row's key with its mask, or with its mask and
    Control.  Rows without such a binding contribute nothing. *)
Theorem grab_set_only_changed_rows idx root (orig : list charcodemap_t) k m :
  (k, m) ∈ grab_set (grab_keys idx root orig) ->
  exists chr map,
    chr ∈ orig /\
    idx !! key chr = Some map /\
    (code map <> code chr \/ modmask map <> modmask chr) /\
    k = code chr /\
    (m = to_uint (modmask chr) \/
     m = to_uint (Z.lor (modmask chr) X.ControlMask)).
Proof.
  rewrite grab_set_grab_keys. intros Hin.
  apply list_elem_of_In, in_flat_map in Hin as (chr & Hchr & Hin).
  apply list_elem_of_In in Hchr.
  unfold grab_row in Hin.
  destruct (idx !! key chr) as [map|] eqn:Hmap; [|destruct Hin].
  destruct (Z.eqb_spec (code map) (code chr)) as [Hc|Hc];
    destruct (Z.eqb_spec (modmask map) (modmask chr)) as [Hm|Hm];
    simpl in Hin; try destruct Hin as [Heq|[Heq|[]]]; try done;
    injection Heq as <- <-; exists chr, map; repeat split; auto.
Qed.

Lemma grab_set_only_changed_rows_witness :
  exists chr map,
    chr ∈ [a_low_plain; e_acute_orig] /\
    e_acute_index !! key chr = Some map /\
    (code map <> code chr \/ modmask map <> modmask chr) /\
    18 = code chr /\
    (5 = to_uint (modmask chr) \/
     5 = to_uint (Z.lor (modmask chr) X.ControlMask)).
Proof.
  apply (grab_set_only_changed_rows e_acute_index 1
           [a_low_plain; e_acute_orig] 18 5).
  vm_compute. apply list_elem_of_further, list_elem_of_here.
Defined.

(** X8: a row of the original table whose character is a control character,
    or has no row at all in the new table, is never grabbed. *)
Theorem unreachable_character_not_grabbed
    iscntrl (new : list charcodemap_t) root chr :
  iscntrl (key chr) = true \/ (forall r, r ∈ new -> key r <> key chr) ->
  grab_row (build_map_by_char iscntrl new) root chr = [].
Proof.
  intros H. unfold grab_row.
  destruct (build_map_by_char iscntrl new !! key chr) as [map|] eqn:E; [|done].
  destruct (build_sound iscntrl new _ _ E) as (Hin & Hk & Hc).
  destruct H as [H|H]; [congruence|]. by destruct (H map Hin).
Qed.

Lemma unreachable_character_not_grabbed_witness :
  grab_row (build_map_by_char iscntrl_C [Charcodemap 13 36 65293 0 0; a_new]) 1
    (Charcodemap 13 22 65293 0 0) = [] /\
  grab_row (build_map_by_char iscntrl_C [a_new]) 1 alpha_orig = [].
Proof.
  split.
  - apply (unreachable_character_not_grabbed iscntrl_C
             [Charcodemap 13 36 65293 0 0; a_new] 1 (Charcodemap 13 22 65293 0 0)).
    left. reflexivity.
  - apply (unreachable_character_not_grabbed iscntrl_C [a_new] 1 alpha_orig).
    right. intros r Hin.
    apply elem_of_cons in Hin as [-> | Hin]; [discriminate|].
    by apply elem_of_nil in Hin.
Defined.

Lemma flat_map_all_nil {A B} (f : A -> list B) (l : list A) :
  (forall a, a ∈ l -> f a = []) -> flat_map f l = [].
Proof.
  induction l as [|a l IH]; intros H; [done|].
  simpl. rewrite (H a); [|by left]. apply IH. intros a' Ha'. apply H. by right.
Qed.

(** X9: when the new table is the original table and no character has two
    rows in it, nothing is grabbed. *)
Theorem unchanged_layout_grabs_nothing iscntrl (l : list charcodemap_t) root :
  (forall r r', r ∈ l -> r' ∈ l -> key r' = key r -> r' = r) ->
  grab_keys (build_map_by_char iscntrl l) root l = [].
Proof.
  intros Hone. unfold grab_keys.
  assert (forall chr, chr ∈ l ->
                      grab_row (build_map_by_char iscntrl l) root chr = []) as H.
  { intros chr Hin. destruct (iscntrl (key chr)) eqn:Hc.
    - unfold grab_row.
      destruct (build_map_by_char iscntrl l !! key chr) as [map|] eqn:E; [|done].
      destruct (build_sound iscntrl l _ _ E) as (_ & _ & Hc'). congruence.
    - unfold grab_row.
      rewrite (build_map_by_char_least iscntrl chr l Hc Hin).
      + by rewrite !Z.eqb_refl.
      + intros r' Hin' Hk. left. by apply Hone. }
  by apply flat_map_all_nil.
Qed.

(** Membership in a list that is written out. *)
Ltac in_cases H :=
  repeat (apply elem_of_cons in H as [-> | H]);
  try (by apply elem_of_nil in H).

Lemma unchanged_layout_grabs_nothing_witness :
  grab_keys (build_map_by_char iscntrl_C [a_orig; b_plain; e_acute_orig]) 1
    [a_orig; b_plain; e_acute_orig] = [].
Proof.
  apply (unchanged_layout_grabs_nothing iscntrl_C
           [a_orig; b_plain; e_acute_orig] 1).
  intros r r' Hr Hr' Hk. in_cases Hr; in_cases Hr'; done.
Defined.

(** ** The 32-bit arithmetic of the matching step *)

Lemma to_uint_idemp z : to_uint (to_uint z) = to_uint z.
Proof. unfold to_uint. by rewrite Z.mod_mod. Qed.

Lemma to_int_to_uint z : to_int (to_uint z) = to_int z.
Proof. unfold to_int. by rewrite to_uint_idemp. Qed.

Lemma to_uint_land_l a b : to_uint (Z.land (to_uint a) b) = to_uint (Z.land a b).
Proof.
  rewrite !to_uint_land. apply Z.bits_inj'. intros n Hn.
  rewrite !Z.land_spec.
  destruct (Z.testbit a n), (Z.testbit b n), (Z.testbit (Z.ones 32) n); done.
Qed.

Lemma to_int_small z : - 2 ^ 31 <= z < 2 ^ 31 -> to_int z = z.
Proof.
  intros Hz. unfold to_int, to_uint.
  destruct (Z_lt_le_dec z 0) as [Hneg|Hpos].
  - assert (z mod 2 ^ 32 = z + 2 ^ 32) as ->.
    { symmetry. apply (Zmod_unique z (2 ^ 32) (-1)); lia. }
    destruct (Z.ltb_spec (z + 2 ^ 32) (2 ^ 31)); lia.
  - rewrite Z.mod_small by lia.
    destruct (Z.ltb_spec z (2 ^ 31)); lia.
Qed.

Lemma to_int_testbit z n :
  0 <= n < 32 -> Z.testbit (to_int z) n = Z.testbit z n.
Proof.
  intros Hn. unfold to_int, to_uint.
  destruct (z mod 2 ^ 32 <? 2 ^ 31).
  - apply Z.mod_pow2_bits_low. lia.
  - rewrite <- (Z.mod_pow2_bits_low (z mod 2 ^ 32 - 2 ^ 32) 32 n) by lia.
    replace (z mod 2 ^ 32 - 2 ^ 32) with (z mod 2 ^ 32 + (-1) * 2 ^ 32) by lia.
    rewrite Z.mod_add by lia. rewrite Z.mod_mod by lia.
    apply Z.mod_pow2_bits_low. lia.
Qed.

(** [key.state &~ PRESERVED_MODS], read as an [int]. *)
Lemma relevant_modmask_eq e :
  relevant_modmask e = to_int (Z.land (state e) (Z.lnot X.ControlMask)).
Proof.
  unfold relevant_modmask, PRESERVED_MODS.
  rewrite <- to_int_to_uint, (Z.land_comm (state e)), to_uint_land_l.
  by rewrite (Z.land_comm _ (state e)), to_int_to_uint.
Qed.

Lemma land_lnot_lor a b : Z.land (Z.lor a b) (Z.lnot b) = Z.land a (Z.lnot b).
Proof.
  apply Z.bits_inj'. intros n Hn.
  rewrite !Z.land_spec, Z.lor_spec, Z.lnot_spec by done.
  destruct (Z.testbit a n), (Z.testbit b n); done.
Qed.

Lemma land_lnot_disjoint a b : Z.land a b = 0 -> Z.land a (Z.lnot b) = a.
Proof.
  intros H. apply Z.bits_inj'. intros n Hn.
  rewrite Z.land_spec, Z.lnot_spec by done.
  assert (Z.testbit (Z.land a b) n = false) as Hb by (rewrite H; apply Z.bits_0).
  rewrite Z.land_spec in Hb.
  destruct (Z.testbit a n), (Z.testbit b n); done.
Qed.

(** The matching step does not see the Control bit of the observed state. *)
Lemma relevant_modmask_control e :
  relevant_modmask (set_state (Z.lor (state e) X.ControlMask) e)
  = relevant_modmask e.
Proof. rewrite !relevant_modmask_eq. simpl. by rewrite land_lnot_lor. Qed.

Lemma relevant_modmask_control_clear e :
  Z.testbit (relevant_modmask e) 2 = false.
Proof.
  rewrite relevant_modmask_eq, to_int_testbit by lia.
  rewrite Z.land_spec, Z.lnot_spec by lia.
  change (Z.testbit X.ControlMask 2) with true.
  by destruct (Z.testbit (state e) 2).
Qed.

(** ** The event loop, event by event *)

Lemma translate_drop_row idx srv xkey chr post pre :
  row_matches xkey chr = false ->
  translate idx srv xkey (pre ++ chr :: post)
  = translate idx srv xkey (pre ++ post).
Proof.
  intros Hm. induction pre as [|r pre IH].
  - simpl app. by apply translate_skip.
  - change ((r :: pre) ++ chr :: post) with (r :: (pre ++ chr :: post)).
    change ((r :: pre) ++ post) with (r :: (pre ++ post)).
    destruct (row_matches xkey r) eqn:Hr.
    + destruct (idx !! key r) as [map|] eqn:Hmap.
      * by rewrite !(translate_hit idx srv xkey r map).
      * rewrite !translate_unknown by done. by rewrite IH.
    + by rewrite !translate_skip.
Qed.

(** X10: a key event that matches no row of the original table is dropped
    without a word: the keyboard is thawed, nothing is printed and nothing
    is sent. *)
Theorem unmatched_event_dropped_silently
    (orig : list charcodemap_t) idx srv xevent :
  is_key_event xevent = true ->
  (forall r, r ∈ orig -> row_matches xevent r = false) ->
  handle_event orig idx srv xevent
  = [XAllowEvents X.SyncKeyboard (time xevent)].
Proof.
  intros Hkey Hnone. unfold handle_event, is_key_event in *.
  apply orb_prop in Hkey.
  assert (negb (type xevent =? X.KeyPress) && negb (type xevent =? X.KeyRelease)
          = false) as -> by (destruct Hkey as [-> | ->]; by rewrite ?andb_false_r).
  destruct (send_event xevent); [done|].
  rewrite translate_no_target.
  - by rewrite diagnosed_nil.
  - intros r Hin Hm. rewrite Hnone in Hm; done.
Qed.

Lemma unmatched_event_dropped_silently_witness :
  handle_event [e_acute_orig; a_orig] e_acute_index a_server
    (KeyEvent X.KeyRelease false 5 1000 0 52)
  = [XAllowEvents X.SyncKeyboard 1000].
Proof.
  apply (unmatched_event_dropped_silently [e_acute_orig; a_orig] e_acute_index
           a_server (KeyEvent X.KeyRelease false 5 1000 0 52)).
  - reflexivity.
  - intros r Hin. in_cases Hin; reflexivity.
Defined.

(** X11: a row of the original table whose modifier mask has the Control bit
    is dead for the loop: no event ever matches it, and every event is
    handled as if the row were not in the table. *)
Theorem control_row_never_matches
    (pre post : list charcodemap_t) chr idx srv xevent :
  Z.land (modmask chr) X.ControlMask = X.ControlMask ->
  row_matches xevent chr = false /\
  handle_event (pre ++ chr :: post) idx srv xevent
  = handle_event (pre ++ post) idx srv xevent.
Proof.
  intros Hctrl.
  assert (row_matches xevent chr = false) as Hm.
  { unfold row_matches. apply andb_false_intro2. apply Z.eqb_neq. intros E.
    pose proof (relevant_modmask_control_clear xevent) as Hbit.
    rewrite E in Hbit.
    assert (Z.testbit (Z.land (modmask chr) X.ControlMask) 2 = true) as Hb
      by (by rewrite Hctrl).
    rewrite Z.land_spec, Hbit in Hb. done. }
  split; [done|]. unfold handle_event.
  by rewrite (translate_drop_row idx srv xevent chr post pre Hm).
Qed.

Lemma control_row_never_matches_witness :
  row_matches (KeyEvent X.KeyPress false 5 1000 4 38) (Charcodemap 1 38 97 0 4)
  = false /\
  handle_event ([alpha_orig] ++ Charcodemap 1 38 97 0 4 :: [a_orig])
    e_acute_index a_server (KeyEvent X.KeyPress false 5 1000 4 38)
  = handle_event ([alpha_orig] ++ [a_orig]) e_acute_index a_server
      (KeyEvent X.KeyPress false 5 1000 4 38).
Proof.
  apply (control_row_never_matches [alpha_orig] [a_orig]
           (Charcodemap 1 38 97 0 4) e_acute_index a_server
           (KeyEvent X.KeyPress false 5 1000 4 38)).
  reflexivity.
Defined.

(** X12: every combination the grab loop asks for is answered by the event
    loop.  When a row of the original table is grabbed, its mask is an [int]
    without the Control bit, and a key event arrives on the row's key with
    the row's mask, with or without Control, then a row of the table matches
    the event and a primary event is sent. *)
Theorem grabbed_key_is_translated
    (orig : list charcodemap_t) idx root srv chr xevent :
  chr ∈ orig ->
  grab_row idx root chr <> [] ->
  - 2 ^ 31 <= modmask chr < 2 ^ 31 ->
  Z.land (modmask chr) X.ControlMask = 0 ->
  genuine xevent = true ->
  keycode xevent = code chr ->
  state xevent = to_uint (modmask chr) \/
  state xevent = to_uint (Z.lor (modmask chr) X.ControlMask) ->
  row_matches xevent chr = true /\
  exists mods map,
    sent_events (handle_event orig idx srv xevent)
    = mods ++ [primary_sent srv xevent map].
Proof.
  intros Hin Hgrab Hrange Hclear Hgen Hcode Hstate.
  assert (relevant_modmask xevent = modmask chr) as Hrel.
  { rewrite relevant_modmask_eq, <- to_int_to_uint.
    rewrite (Z.land_comm (state xevent)).
    assert (to_uint (Z.land (Z.lnot X.ControlMask) (state xevent))
            = to_uint (modmask chr)) as ->.
    { rewrite Z.land_comm.
      destruct Hstate as [-> | ->]; rewrite to_uint_land_l.
      - by rewrite land_lnot_disjoint.
      - by rewrite land_lnot_lor, land_lnot_disjoint. }
    rewrite to_int_to_uint. by apply to_int_small. }
  assert (row_matches xevent chr = true) as Hm.
  { unfold row_matches. by rewrite Hcode, Hrel, !Z.eqb_refl. }
  split; [done|].
  assert (exists map, idx !! key chr = Some map) as [map0 Hmap0].
  { unfold grab_row in Hgrab. destruct (idx !! key chr); [eauto|done]. }
  unfold genuine, is_key_event in Hgen.
  apply andb_prop in Hgen as [Hkey Hsend]. apply orb_prop in Hkey.
  unfold handle_event.
  assert (negb (type xevent =? X.KeyPress) && negb (type xevent =? X.KeyRelease)
          = false) as -> by (destruct Hkey as [-> | ->]; by rewrite ?andb_false_r).
  destruct (send_event xevent); [done|].
  destruct (first_target idx xevent orig)
    as [Hnone|(pre & r & map & post & -> & Hr & Hmap & Hpre)].
  - rewrite (Hnone chr Hin Hm) in Hmap0. done.
  - rewrite (translate_first_target idx srv xevent pre r map) by done.
    destruct (sent_events_send_translation srv xevent map) as (mods & E & _).
    exists mods, map. simpl.
    by rewrite sent_events_app, sent_events_diagnosed, E.
Qed.

Lemma grabbed_key_is_translated_witness :
  row_matches (KeyEvent X.KeyPress false 5 1000 5 18) e_acute_orig = true /\
  exists mods map,
    sent_events (handle_event [a_low_plain; e_acute_orig] e_acute_index a_server
                   (KeyEvent X.KeyPress false 5 1000 5 18))
    = mods ++ [primary_sent a_server (KeyEvent X.KeyPress false 5 1000 5 18) map].
Proof.
  apply (grabbed_key_is_translated [a_low_plain; e_acute_orig] e_acute_index 1
           a_server e_acute_orig (KeyEvent X.KeyPress false 5 1000 5 18)).
  - apply list_elem_of_further, list_elem_of_here.
  - vm_compute. discriminate.
  - vm_compute. split; [discriminate | reflexivity].
  - reflexivity.
  - reflexivity.
  - reflexivity.
  - right. reflexivity.
Defined.

(** ** What is sent for a translated event *)

Lemma land_bit (a : Z) (k : Z) :
  0 <= k -> Z.land a (2 ^ k) = if Z.testbit a k then 2 ^ k else 0.
Proof.
  intros Hk. apply Z.bits_inj'. intros n Hn.
  rewrite Z.land_spec, Z.pow2_bits_eqb by done.
  destruct (Z.testbit a k) eqn:Ha.
  - rewrite Z.pow2_bits_eqb by done.
    destruct (Z.eqb_spec k n) as [->|]; [by rewrite Ha|by rewrite andb_false_r].
  - rewrite Z.bits_0.
    destruct (Z.eqb_spec k n) as [->|]; [by rewrite Ha|by rewrite andb_false_r].
Qed.

(** The parity rule of lines 254 and 264, in words. *)
Lemma shift_down_shift map p :
  truthy (Z.lxor (Z.land (modmask map) X.ShiftMask) (lnot_int p))
  = eqb (needs_shift map) p.
Proof.
  unfold needs_shift, X.ShiftMask.
  change (Z.land (modmask map) 1) with (Z.land (modmask map) (2 ^ 0)).
  rewrite (land_bit (modmask map) 0) by lia.
  destruct (Z.testbit (modmask map) 0), p; reflexivity.
Qed.

Lemma shift_down_level3 map p :
  truthy (Z.lxor (Z.land (modmask map) X.Mod5Mask) (lnot_int p))
  = needs_level3 map || negb p.
Proof.
  unfold needs_level3, X.Mod5Mask.
  change (Z.land (modmask map) 128) with (Z.land (modmask map) (2 ^ 7)).
  rewrite (land_bit (modmask map) 7) by lia.
  destruct (Z.testbit (modmask map) 7), p; reflexivity.
Qed.

(** Everything sent for a row with target [map], request by request. *)
Lemma send_translation_eq srv e map :
  send_translation srv e map
  = modifier_requests srv e map
      ++ [send_primary srv (set_window (focused_window srv) e) map].
Proof.
  unfold send_translation, reconcile_shift, reconcile_level3, modifier_requests,
    send_modifier.
  cbn [state set_window].
  change (pressed (set_window (focused_window srv) e)) with (pressed e).
  rewrite shift_down_shift, shift_down_level3.
  destruct (Z.land (state e) X.ShiftMask =? Z.land (modmask map) X.ShiftMask);
    destruct (Z.land (state e) 128 =? Z.land (modmask map) 128);
    reflexivity.
Qed.

(** X13: what the loop does for a translated event, call by call.  After the
    thaw and the diagnostics of the rows scanned before, a Shift event is
    sent when the observed and the target Shift bits differ, then a
    third-level event when bit [0x80] differs, then the primary event.  The
    Shift event is a key press exactly when the target's need for Shift and
    the observed event being a press agree; the third-level event is a key
    press when the target needs Mod5 or the observed event is a release, so
    a release towards a third-level target sends a third-level key press. *)
Theorem translated_event_calls
    (pre post : list charcodemap_t) chr map idx srv xevent :
  genuine xevent = true ->
  row_matches xevent chr = true ->
  idx !! key chr = Some map ->
  (forall r, r ∈ pre -> row_matches xevent r = true -> idx !! key r = None) ->
  handle_event (pre ++ chr :: post) idx srv xevent
  = XAllowEvents X.SyncKeyboard (time xevent)
      :: (unknown_key <$> List.filter (row_matches xevent) pre)
      ++ modifier_requests srv xevent map
      ++ [send_primary srv (set_window (focused_window srv) xevent) map].
Proof.
  intros Hgen Hm Hmap Hpre.
  unfold genuine, is_key_event in Hgen.
  apply andb_prop in Hgen as [Hkey Hsend]. apply orb_prop in Hkey.
  unfold handle_event.
  assert (negb (type xevent =? X.KeyPress) && negb (type xevent =? X.KeyRelease)
          = false) as -> by (destruct Hkey as [-> | ->]; by rewrite ?andb_false_r).
  destruct (send_event xevent); [done|].
  rewrite (translate_first_target idx srv xevent pre chr map) by done.
  by rewrite send_translation_eq.
Qed.

Lemma translated_event_calls_witness :
  handle_event ([alpha_orig] ++ Charcodemap 97 38 97 0 0 :: [])
    (build_map_by_char iscntrl_C [Charcodemap 97 24 97 0 128]) a_server
    (KeyEvent X.KeyRelease false 5 1000 0 38)
  = [ XAllowEvents X.SyncKeyboard 1000;
      unknown_key alpha_orig;
      XSendEvent 77 true X.KeyPressMask (KeyEvent X.KeyPress false 77 1000 0 92);
      XSendEvent 77 true X.KeyReleaseMask
        (KeyEvent X.KeyRelease false 77 1000 128 24) ].
Proof.
  apply (translated_event_calls [alpha_orig] [] (Charcodemap 97 38 97 0 0)
           (Charcodemap 97 24 97 0 128)
           (build_map_by_char iscntrl_C [Charcodemap 97 24 97 0 128]) a_server
           (KeyEvent X.KeyRelease false 5 1000 0 38)).
  - reflexivity.
  - reflexivity.
  - vm_compute. reflexivity.
  - intros r Hin Hm. in_cases Hin. vm_compute. reflexivity.
Defined.

Lemma modifier_requests_well_addressed srv e map :
  Forall (well_addressed srv e) (modifier_requests srv e map).
Proof.
  assert (forall kc down, well_addressed srv e (send_modifier srv e kc down))
    as H.
  { intros kc down. unfold well_addressed, send_modifier.
    destruct down; simpl; auto 10. }
  unfold modifier_requests. apply Forall_app. split; case_match;
    first [apply Forall_nil_2 | apply Forall_cons_2; [apply H|apply Forall_nil_2]].
Qed.

Lemma translate_well_addressed idx srv e rows :
  is_key_event e = true ->
  Forall (well_addressed srv e) (translate idx srv e rows).
Proof.
  intros Hkey. induction rows as [|chr rows IH]; [constructor|].
  destruct (row_matches e chr) eqn:Hm;
    [destruct (idx !! key chr) as [map|] eqn:Hmap|].
  - rewrite (translate_hit idx srv e chr map) by done.
    rewrite send_translation_eq. apply Forall_app. split.
    + apply modifier_requests_well_addressed.
    + apply Forall_cons_2; [|apply Forall_nil_2].
      unfold send_primary, well_addressed, primary_event. simpl.
      do 4 (split; [done|]).
      unfold pressed, is_key_event in *. simpl.
      destruct (Z.eqb_spec (type e) X.KeyPress) as [Hp|Hp]; [by left|].
      right. simpl in Hkey. split; [done|]. by apply Z.eqb_eq in Hkey.
  - rewrite translate_unknown by done. by apply Forall_cons_2.
  - by rewrite translate_skip.
Qed.

(** X14: every event the loop sends for an observed event goes to the window
    that has the focus, is propagated, names that window, keeps the time
    stamp of the observed event, and is sent with the event mask of its own
    type (the press mask with a key press, the release mask with a key
    release). *)
Theorem sent_events_well_addressed (orig : list charcodemap_t) idx srv xevent :
  Forall (well_addressed srv xevent) (handle_event orig idx srv xevent).
Proof.
  unfold handle_event.
  destruct (negb (type xevent =? X.KeyPress) && negb (type xevent =? X.KeyRelease))
    eqn:Htype; [constructor|].
  constructor; [done|].
  destruct (send_event xevent); [constructor|].
  apply translate_well_addressed. unfold is_key_event.
  destruct (type xevent =? X.KeyPress), (type xevent =? X.KeyRelease); done.
Qed.

(** ** The Control key *)

Lemma row_matches_control e chr :
  row_matches (with_control e) chr = row_matches e chr.
Proof.
  unfold row_matches, with_control.
  by rewrite relevant_modmask_control.
Qed.

Lemma diagnosed_control e (rows : list charcodemap_t) :
  diagnosed (with_control e) rows = diagnosed e rows.
Proof.
  unfold diagnosed. f_equal. apply List.filter_ext. intros chr.
  apply row_matches_control.
Qed.

Lemma land_lor_disjoint s a m : Z.land a m = 0 -> Z.land (Z.lor s a) m = Z.land s m.
Proof. intros H. by rewrite Z.land_lor_distr_l, H, Z.lor_0_r. Qed.

Lemma modifier_requests_control srv e map :
  modifier_requests srv (with_control e) map = modifier_requests srv e map.
Proof.
  unfold modifier_requests, with_control. cbn [state set_state].
  rewrite !(land_lor_disjoint (state e) X.ControlMask) by reflexivity.
  reflexivity.
Qed.

Lemma primary_state_control mm s :
  to_uint (Z.lor mm (Z.land (Z.lor s X.ControlMask) X.ControlMask))
  = Z.lor (to_uint (Z.lor mm (Z.land s X.ControlMask))) X.ControlMask.
Proof.
  rewrite land_lor_absorb.
  rewrite (to_uint_lor_small _ X.ControlMask) by reflexivity.
  f_equal. rewrite <- Z.lor_assoc. f_equal.
  apply Z.bits_inj'. intros n Hn. rewrite Z.lor_spec, Z.land_spec.
  destruct (Z.testbit s n), (Z.testbit X.ControlMask n); done.
Qed.

Lemma primary_event_control w e map :
  primary_event (set_window w (with_control e)) map
  = with_control (primary_event (set_window w e) map).
Proof.
  destruct e as [ty se wi t st kc].
  unfold primary_event, with_control, PRESERVED_MODS, set_state, set_keycode,
    set_window. cbn [type send_event window time state keycode].
  f_equal. apply primary_state_control.
Qed.

(** X15: holding Control changes nothing but the Control bit of the primary
    event.  For an observed event and the same event with the Control bit
    added to its state, the loop makes the same calls up to the last one;
    the last event sent, if any, is the same event with the Control bit
    added. *)
Theorem control_changes_primary_only (orig : list charcodemap_t) idx srv xevent :
  removelast (handle_event orig idx srv (with_control xevent))
  = removelast (handle_event orig idx srv xevent) /\
  last (sent_events (handle_event orig idx srv (with_control xevent)))
  = (fun s => (s.1.1, s.1.2, with_control s.2))
      <$> last (sent_events (handle_event orig idx srv xevent)).
Proof.
  unfold handle_event. cbn [type time send_event with_control set_state].
  destruct (negb (type xevent =? X.KeyPress) && negb (type xevent =? X.KeyRelease));
    [done|].
  destruct (send_event xevent); [done|].
  fold (with_control xevent).
  destruct (first_target idx xevent orig)
    as [Hnone|(pre & chr & map & post & -> & Hm & Hmap & Hpre)].
  - rewrite (translate_no_target idx srv xevent) by done.
    rewrite (translate_no_target idx srv (with_control xevent)).
    + rewrite diagnosed_control. split; [done|].
      simpl. by rewrite sent_events_diagnosed.
    + intros r Hin. rewrite row_matches_control. by apply Hnone.
  - rewrite (translate_first_target idx srv xevent pre chr map) by done.
    rewrite (translate_first_target idx srv (with_control xevent) pre chr map).
    + rewrite diagnosed_control, !send_translation_eq, modifier_requests_control.
      set (front := diagnosed xevent pre ++ modifier_requests srv xevent map).
      rewrite !(app_assoc (diagnosed xevent pre)). fold front.
      split.
      * rewrite !app_comm_cons, !removelast_last. done.
      * rewrite !app_comm_cons, !sent_events_app. simpl.
        rewrite !last_snoc. simpl. by rewrite primary_event_control.
    + intros r Hin. rewrite row_matches_control. by apply Hpre.
    + by rewrite row_matches_control.
    + done.
Qed.

(** ** The stream of events *)

Lemma thaws_app t1 t2 : thaws (t1 ++ t2) = thaws t1 ++ thaws t2.
Proof. unfold thaws. apply flat_map_app. Qed.

Lemma without_thaws_app t1 t2 :
  without_thaws (t1 ++ t2) = without_thaws t1 ++ without_thaws t2.
Proof. unfold without_thaws. apply List.filter_app. Qed.

Lemma thaws_translate idx srv e rows : thaws (translate idx srv e rows) = [].
Proof.
  induction rows as [|chr rows IH]; [done|].
  destruct (row_matches e chr) eqn:Hm;
    [destruct (idx !! key chr) as [map|] eqn:Hmap|].
  - rewrite (translate_hit idx srv e chr map) by done.
    rewrite send_translation_eq. unfold modifier_requests.
    repeat case_match; reflexivity.
  - rewrite translate_unknown by done. exact IH.
  - by rewrite translate_skip.
Qed.

Lemma handle_event_not_genuine orig idx srv e :
  genuine e = false -> without_thaws (handle_event orig idx srv e) = [].
Proof.
  unfold genuine, is_key_event, handle_event. intros H.
  destruct (type e =? X.KeyPress), (type e =? X.KeyRelease), (send_event e);
    done.
Qed.

Lemma thaws_handle_event orig idx srv e :
  thaws (handle_event orig idx srv e)
  = if is_key_event e then [(X.SyncKeyboard, time e)] else [].
Proof.
  unfold is_key_event, handle_event.
  destruct (type e =? X.KeyPress), (type e =? X.KeyRelease); simpl; try done;
    destruct (send_event e); by rewrite ?thaws_translate.
Qed.

(** X16: events that are not key events and key events marked as sent by a
    client leave no trace but the thaw: apart from the [XAllowEvents] calls,
    the loop makes the same calls, in the same order, as on the stream with
    those events taken out. *)
Theorem loop_ignores_foreign_events
    (orig : list charcodemap_t) idx (events : list (xserver * XKeyEvent)) :
  without_thaws (event_loop orig idx events)
  = without_thaws
      (event_loop orig idx (List.filter (fun se => genuine se.2) events)).
Proof.
  unfold event_loop. induction events as [|[srv e] events IH]; [done|].
  simpl. rewrite without_thaws_app, IH.
  destruct (genuine e) eqn:Hg.
  - simpl. by rewrite without_thaws_app.
  - by rewrite handle_event_not_genuine.
Qed.

(** X17: the keyboard is thawed exactly once for every key event, in the
    order of the events and with the time stamp of each, whether the event
    is translated, dropped or marked as sent; it is not thawed for events of
    other types. *)
Theorem one_thaw_per_key_event
    (orig : list charcodemap_t) idx (events : list (xserver * XKeyEvent)) :
  thaws (event_loop orig idx events)
  = (fun se => (X.SyncKeyboard, time se.2))
      <$> List.filter (fun se => is_key_event se.2) events.
Proof.
  unfold event_loop. induction events as [|[srv e] events IH]; [done|].
  simpl. rewrite thaws_app, IH, thaws_handle_event.
  by destruct (is_key_event e).
Qed.

(** ** The run as a whole *)

Section WindowOption.
Variable HELP_SEE_WINDOW_STACK : string.
Variable inp : inputs.

(** Option parsing reads the command name and the argument count only. *)
Lemma parse_options_same_command inp' results : forall w p,
  cmd inp' = cmd inp -> argc inp' = argc inp ->
  parse_options HELP_SEE_WINDOW_STACK inp' results w p
  = parse_options HELP_SEE_WINDOW_STACK inp results w p.
Proof.
  induction results as [|[c o] results IH]; intros w p Hcmd Hargc; [done|].
  simpl. rewrite Hcmd, Hargc. repeat case_match; try done. by apply IH.
Qed.

(** The value given to [--window] has no part in option parsing but being
    remembered. *)
Lemma parse_options_optarg results : forall results' w w' p,
  results.*1 = results'.*1 ->
  (exists w1 w2,
      parse_options HELP_SEE_WINDOW_STACK inp results w p = (Go w1, p) /\
      parse_options HELP_SEE_WINDOW_STACK inp results' w' p = (Go w2, p)) \/
  (exists status t,
      parse_options HELP_SEE_WINDOW_STACK inp results w p
      = (Returned status, add_trace p t) /\
      parse_options HELP_SEE_WINDOW_STACK inp results' w' p
      = (Returned status, add_trace p t)).
Proof.
  induction results as [|[c o] results IH]; intros [|[c' o'] results'] w w' p H;
    try discriminate H.
  { left. by exists w, w'. }
  injection H as <- H. simpl.
  destruct (c =? -1); [left; by exists w, w'|].
  destruct (c =? opt_window); [by apply IH|].
  right. destruct (c =? opt_help).
  - exists EXIT_SUCCESS,
      [fprintf stdout (usage HELP_SEE_WINDOW_STACK) [arg_string (cmd inp)];
       consume_args (argc inp)]. split; by run_M.
  - exists EXIT_FAILURE,
      [fprintf stderr (usage HELP_SEE_WINDOW_STACK) [arg_string (cmd inp)]].
    split; by run_M.
Qed.
End WindowOption.

(** X18: the value given to [--window], and how often the option is given
    a value, has no effect: two starts of the command for which
    [getopt_long_only] yields the same results up to the option arguments
    make the same calls and end in the same state. *)
Theorem window_option_has_no_effect
    HELP_SEE_WINDOW_STACK iscntrl inp results' events cc0 :
  (getopt_results inp).*1 = results'.*1 ->
  cmd_fakemap HELP_SEE_WINDOW_STACK iscntrl (with_getopt_results inp results')
    events (initial_process cc0)
  = cmd_fakemap HELP_SEE_WINDOW_STACK iscntrl inp events (initial_process cc0).
Proof.
  intros H.
  set (inp' := with_getopt_results inp results').
  assert (forall w p,
             parse_options HELP_SEE_WINDOW_STACK inp' (getopt_results inp') w p
             = parse_options HELP_SEE_WINDOW_STACK inp results' w p) as Hsame
    by (intros w p; by apply parse_options_same_command).
  destruct (parse_options_optarg HELP_SEE_WINDOW_STACK inp (getopt_results inp)
              results' None None (initial_process cc0) H)
    as [(w1 & w2 & E1 & E2)|(st & t & E1 & E2)];
    rewrite <- Hsame in E2; unfold cmd_fakemap.
  - rewrite (bind_go _ _ _ _ _
               (startup_go HELP_SEE_WINDOW_STACK iscntrl inp cc0 w1 E1)).
    rewrite (bind_go _ _ _ _ _
               (startup_go HELP_SEE_WINDOW_STACK iscntrl inp' cc0 w2 E2)).
    reflexivity.
  - rewrite (bind_returned _ _ _ _ _
               (bind_returned _ _ _ _ _ E1 : startup _ _ inp _ = _)).
    rewrite (bind_returned _ _ _ _ _
               (bind_returned _ _ _ _ _ E2 : startup _ _ inp' _ = _)).
    reflexivity.
Qed.

Lemma window_option_has_no_effect_witness :
  cmd_fakemap EmptyString iscntrl_C
    (with_getopt_results help_inputs
       [(opt_window, Some "7"); (opt_help, Some "x")])
    [] (initial_process [])
  = cmd_fakemap EmptyString iscntrl_C help_inputs [] (initial_process []).
Proof.
  apply (window_option_has_no_effect EmptyString iscntrl_C help_inputs
           [(opt_window, Some "7"); (opt_help, Some "x")] [] []).
  reflexivity.
Defined.

Section LoopingFacts.
Variable HELP_SEE_WINDOW_STACK : string.
Variable iscntrl : Z -> bool.
Variable inp : inputs.
Variable events : list (xserver * XKeyEvent).
Variable cc0 : list charcodemap_t.

(** A run that is in the event loop is in the state [looping]. *)
Lemma cmd_fakemap_looping u p :
  cmd_fakemap HELP_SEE_WINDOW_STACK iscntrl inp events (initial_process cc0)
    = (Go u, p) ->
  p = looping iscntrl inp events.
Proof.
  intros Hrun.
  destruct (cmd_fakemap_cases HELP_SEE_WINDOW_STACK iscntrl inp events cc0)
    as [E|(st & t & E & _)]; rewrite E in Hrun; [|discriminate Hrun].
  by injection Hrun as <-.
Qed.

Lemma event_loop_quiet orig idx :
  executed (event_loop orig idx events) = [] /\
  refreshes (event_loop orig idx events) = 0%nat /\
  grab_set (event_loop orig idx events) = [].
Proof. apply loop_calls_quiet, event_loop_loop_calls. Qed.
End LoopingFacts.

(** X19: no tool is run before the layout has been read and its restoration
    armed: in a run that reaches the event loop, the calls that precede the
    first tool include the read of the layout, the registration of
    [restore_layout] with [atexit] and the installation of the handlers for
    [SIGTERM] and [SIGINT]. *)
Theorem restoration_armed_before_mutation
    HELP_SEE_WINDOW_STACK iscntrl inp events cc0 u p :
  cmd_fakemap HELP_SEE_WINDOW_STACK iscntrl inp events (initial_process cc0)
    = (Go u, p) ->
  before_first_tool (trace p)
  = [ consume_args (optind inp); setlocale_LC_CTYPE; XkbRF_GetNamesProp;
      atexit_restore_layout; signal_exit_success SIGTERM;
      signal_exit_success SIGINT ] /\
  executed (trace p) <> [].
Proof.
  intros Hrun.
  rewrite (cmd_fakemap_looping _ _ _ _ _ _ _ Hrun).
  split; [reflexivity|]. unfold looping, startup_trace. cbn [trace].
  rewrite !executed_app. discriminate.
Qed.

Lemma restoration_armed_before_mutation_witness :
  before_first_tool (trace (looping iscntrl_C sample_inputs []))
  = [ consume_args 1; setlocale_LC_CTYPE; XkbRF_GetNamesProp;
      atexit_restore_layout; signal_exit_success SIGTERM;
      signal_exit_success SIGINT ] /\
  executed (trace (looping iscntrl_C sample_inputs [])) <> [].
Proof.
  apply (restoration_armed_before_mutation EmptyString iscntrl_C sample_inputs
           [] [] () (looping iscntrl_C sample_inputs [])).
  vm_compute. reflexivity.
Defined.

(** X20: the tools of a whole life of the process.  Whatever events arrive,
    a run that reaches the event loop and then ends through [exit] has run
    the layout tool for the dead keys, the layout tool for the target
    layout and the remapping tool, in this order, and at the end the layout
    tool for the captured layout if there is one; the event loop runs no
    tool. *)
Theorem tools_of_a_run HELP_SEE_WINDOW_STACK iscntrl inp events cc0 u p :
  cmd_fakemap HELP_SEE_WINDOW_STACK iscntrl inp events (initial_process cc0)
    = (Go u, p) ->
  executed (trace p ++ exit p)
  = [nodeadkeys_tool; us_basic_tool; xmodmap_tool]
    ++ match vardefs_layout inp with
       | Some layout => [("setxkbmap", ["-layout"; layout])]
       | None => []
       end.
Proof.
  intros Hrun.
  rewrite (cmd_fakemap_looping _ _ _ _ _ _ _ Hrun).
  destruct (grab_keys_quiet (built_index iscntrl inp) (root inp)
              (kept_charcodes inp)) as [Hge _].
  destruct (event_loop_quiet events (kept_charcodes inp) (built_index iscntrl inp))
    as (Hle & _).
  unfold looping, startup_trace, exit, restore_layout. cbn [trace atexit_hooks orig_layout].
  rewrite !executed_app, Hge, Hle.
  by destruct (vardefs_layout inp).
Qed.

Lemma tools_of_a_run_witness :
  executed (trace (looping iscntrl_C sample_inputs [])
              ++ exit (looping iscntrl_C sample_inputs []))
  = [nodeadkeys_tool; us_basic_tool; xmodmap_tool]
    ++ [("setxkbmap", ["-layout"; "de"])].
Proof.
  apply (tools_of_a_run EmptyString iscntrl_C sample_inputs [] [] ()
           (looping iscntrl_C sample_inputs [])).
  vm_compute. reflexivity.
Defined.

(** X21: keys are grabbed at start-up only, and only while the tolerant
    error handler is installed.  In a run that reaches the event loop the
    grab requests are those of the grab loop over the kept table and the
    built index; they stand between the installation of
    [ignore_already_grabbed] and the reinstallation of the handler found,
    each followed resp. preceded by an [XSync]; nothing before them and
    nothing in the event loop requests a grab. *)
Theorem grabs_under_tolerant_handler
    HELP_SEE_WINDOW_STACK iscntrl inp events cc0 u p :
  cmd_fakemap HELP_SEE_WINDOW_STACK iscntrl inp events (initial_process cc0)
    = (Go u, p) ->
  exists before,
    trace p
    = before
        ++ [XSetErrorHandler ignore_already_grabbed; XSync]
        ++ grab_keys (built_index iscntrl inp) (root inp) (kept_charcodes inp)
        ++ [XSync; XSetErrorHandler orig_error_handler]
        ++ event_loop (kept_charcodes inp) (built_index iscntrl inp) events /\
    grab_set before = [] /\
    grab_set (event_loop (kept_charcodes inp) (built_index iscntrl inp) events)
    = [] /\
    grab_set (trace p)
    = grab_set (grab_keys (built_index iscntrl inp) (root inp)
                  (kept_charcodes inp)).
Proof.
  intros Hrun.
  rewrite (cmd_fakemap_looping _ _ _ _ _ _ _ Hrun).
  destruct (event_loop_quiet events (kept_charcodes inp) (built_index iscntrl inp))
    as (_ & _ & Hlg).
  exists [ consume_args (optind inp); setlocale_LC_CTYPE; XkbRF_GetNamesProp;
           atexit_restore_layout; signal_exit_success SIGTERM;
           signal_exit_success SIGINT;
           execlp nodeadkeys_tool.1 nodeadkeys_tool.2; waitpid;
           xdo_new_with_opened_display; xdo_free;
           execlp us_basic_tool.1 us_basic_tool.2; waitpid;
           execlp xmodmap_tool.1 xmodmap_tool.2; waitpid;
           XkbRF_GetNamesProp;
           xdo_new_with_opened_display; xdo_free ].
  unfold looping, startup_trace. cbn [trace].
  split; [cbn [app]; rewrite <- ?app_assoc; cbn [app]; reflexivity|].
  split; [reflexivity|]. split; [done|].
  rewrite !grab_set_app, Hlg, app_nil_r.
  change (grab_set [XSync; XSetErrorHandler orig_error_handler]) with (@nil (Z * Z)).
  by rewrite app_nil_r.
Qed.

Lemma grabs_under_tolerant_handler_witness :
  exists before,
    trace (looping iscntrl_C sample_inputs [])
    = before
        ++ [XSetErrorHandler ignore_already_grabbed; XSync]
        ++ grab_keys (built_index iscntrl_C sample_inputs) (root sample_inputs)
             (kept_charcodes sample_inputs)
        ++ [XSync; XSetErrorHandler orig_error_handler]
        ++ event_loop (kept_charcodes sample_inputs)
             (built_index iscntrl_C sample_inputs) [] /\
    grab_set before = [] /\
    grab_set (event_loop (kept_charcodes sample_inputs)
                (built_index iscntrl_C sample_inputs) []) = [] /\
    grab_set (trace (looping iscntrl_C sample_inputs []))
    = grab_set (grab_keys (built_index iscntrl_C sample_inputs)
                  (root sample_inputs) (kept_charcodes sample_inputs)).
Proof.
  apply (grabs_under_tolerant_handler EmptyString iscntrl_C sample_inputs
           [] [] () (looping iscntrl_C sample_inputs [])).
  vm_compute. reflexivity.
Defined.

(** ** The X error handler *)

(** X22: of the errors the server reports while [ignore_already_grabbed] is
    installed, exactly those that are not [BadAccess] reach the handler
    installed before, in the order reported; every [BadAccess] error is
    answered with one line on the standard error, and the handler returns 1
    for it. *)
Theorem bad_access_is_not_forwarded (orig_result : Z -> Z) (errors : list Z) :
  forwarded (report_errors orig_result errors)
  = List.filter (fun e => negb (e =? BadAccess)) errors /\
  length (warnings (report_errors orig_result errors))
  = length (List.filter (fun e => e =? BadAccess) errors) /\
  (BadAccess ∉ forwarded (report_errors orig_result errors)) /\
  snd (ignore_already_grabbed_body orig_result BadAccess) = 1 /\
  (forall e, e <> BadAccess ->
             snd (ignore_already_grabbed_body orig_result e) = orig_result e).
Proof.
  assert (forwarded (report_errors orig_result errors)
          = List.filter (fun e => negb (e =? BadAccess)) errors) as Hf.
  { induction errors as [|e errors IH]; [done|].
    unfold report_errors, forwarded in *. cbn [flat_map List.filter].
    rewrite flat_map_app, IH. unfold ignore_already_grabbed_body.
    by destruct (e =? BadAccess). }
  split; [done|]. split; [|split; [|split]].
  - clear Hf. induction errors as [|e errors IH]; [done|].
    unfold report_errors, warnings in *. cbn [flat_map List.filter].
    rewrite flat_map_app, length_app, IH. unfold ignore_already_grabbed_body.
    by destruct (e =? BadAccess).
  - rewrite Hf. intros Hin. apply list_elem_of_In, filter_In in Hin as [_ Hin].
    by rewrite Z.eqb_refl in Hin.
  - reflexivity.
  - intros e He. unfold ignore_already_grabbed_body.
    by destruct (Z.eqb_spec e BadAccess).
Qed.

(** ** A key stroke, and the options that start the command *)

Lemma key_strokes_app kc t1 t2 :
  key_strokes kc (t1 ++ t2) = key_strokes kc t1 ++ key_strokes kc t2.
Proof. apply flat_map_app. Qed.

Lemma key_strokes_diagnosed kc e rows : key_strokes kc (diagnosed e rows) = [].
Proof.
  unfold diagnosed. induction (List.filter (row_matches e) rows); done.
Qed.

Lemma key_strokes_send_modifier kc srv e k down :
  key_strokes kc [send_modifier srv e k down]
  = if k =? kc then [down] else [].
Proof.
  unfold key_strokes, send_modifier. cbn [flat_map keycode type].
  rewrite app_nil_r. by destruct (k =? kc), down.
Qed.

Lemma key_strokes_send_primary kc srv e map :
  key_strokes kc [send_primary srv e map]
  = if code map =? kc then [pressed e] else [].
Proof.
  unfold key_strokes, send_primary, primary_event, set_state, set_keycode.
  cbn [flat_map keycode type]. rewrite app_nil_r.
  by destruct (code map =? kc).
Qed.

Lemma handle_event_genuine table idx srv e :
  genuine e = true ->
  handle_event table idx srv e
  = XAllowEvents X.SyncKeyboard (time e) :: translate idx srv e table.
Proof.
  unfold genuine, is_key_event, handle_event. intros Hgen.
  apply andb_prop in Hgen as [Hkey Hsend]. apply orb_prop in Hkey.
  assert (negb (type e =? X.KeyPress) && negb (type e =? X.KeyRelease) = false)
    as -> by (destruct Hkey as [-> | ->]; by rewrite ?andb_false_r).
  by destruct (send_event e).
Qed.

(** The strokes one translated event sends for the key code [kc]. *)
Lemma key_strokes_translated kc pre post chr map idx srv e :
  genuine e = true ->
  row_matches e chr = true ->
  idx !! key chr = Some map ->
  (forall r, r ∈ pre -> row_matches e r = true -> idx !! key r = None) ->
  key_strokes kc (handle_event (pre ++ chr :: post) idx srv e)
  = (if Z.land (state e) X.ShiftMask =? Z.land (modmask map) X.ShiftMask
     then []
     else if Shift_L_keycode srv =? kc
          then [eqb (needs_shift map) (pressed e)] else [])
    ++ (if Z.land (state e) 128 =? Z.land (modmask map) 128
        then []
        else if ISO_Level3_Shift_keycode srv =? kc
             then [needs_level3 map || negb (pressed e)] else [])
    ++ (if code map =? kc then [pressed e] else []).
Proof.
  intros Hgen Hm Hmap Hpre.
  rewrite handle_event_genuine by done.
  rewrite (translate_first_target idx srv e pre chr map) by done.
  rewrite send_translation_eq.
  change (XAllowEvents X.SyncKeyboard (time e) :: ?t)
    with ([XAllowEvents X.SyncKeyboard (time e)] ++ t).
  rewrite !key_strokes_app, key_strokes_diagnosed, key_strokes_send_primary.
  change (pressed (set_window (focused_window srv) e)) with (pressed e).
  unfold modifier_requests. rewrite key_strokes_app.
  destruct (Z.land (state e) X.ShiftMask =? Z.land (modmask map) X.ShiftMask);
    destruct (Z.land (state e) 128 =? Z.land (modmask map) 128);
    rewrite ?key_strokes_send_modifier;
    change (key_strokes kc []) with (@nil bool);
    change (key_strokes kc [XAllowEvents X.SyncKeyboard (time e)])
      with (@nil bool);
    cbn [app]; rewrite ?app_nil_r, <- ?app_assoc; reflexivity.
Qed.

(** X23: a stroke of a translated key, a press followed by the release
    with the same modifier state.  The target key is pressed and released.
    When the observed and the target Shift bits differ, the left Shift key
    is sent twice, in opposite directions: pressed and then released when
    the target needs Shift, released and then pressed when it does not.
    When bit [0x80] differs, the third-level key is sent twice and its
    second event is always a press: towards a target that needs Mod5 it is
    pressed at the press and pressed again at the release, so the stroke
    leaves it pressed. *)
Theorem stroke_modifier_balance
    (pre post : list charcodemap_t) chr map idx srv e :
  genuine e = true ->
  pressed e = true ->
  row_matches e chr = true ->
  idx !! key chr = Some map ->
  (forall r, r ∈ pre -> row_matches e r = true -> idx !! key r = None) ->
  code map <> Shift_L_keycode srv ->
  code map <> ISO_Level3_Shift_keycode srv ->
  Shift_L_keycode srv <> ISO_Level3_Shift_keycode srv ->
  let t := event_loop (pre ++ chr :: post) idx [(srv, e); (srv, release_of e)] in
  key_strokes (code map) t = [true; false] /\
  key_strokes (Shift_L_keycode srv) t
  = (if Z.land (state e) X.ShiftMask =? Z.land (modmask map) X.ShiftMask
     then []
     else [needs_shift map; negb (needs_shift map)]) /\
  key_strokes (ISO_Level3_Shift_keycode srv) t
  = (if Z.land (state e) 128 =? Z.land (modmask map) 128
     then []
     else [needs_level3 map; true]).
Proof.
  intros Hgen Hp Hm Hmap Hpre Hs Hl Hsl t. subst t.
  assert (genuine (release_of e) = true) as Hgen'.
  { unfold genuine, is_key_event, release_of, set_type in *.
    cbn [type send_event]. apply andb_prop in Hgen as [_ ->]. done. }
  assert (pressed (release_of e) = false) as Hp' by reflexivity.
  unfold event_loop. cbn [flat_map]. rewrite app_nil_r.
  assert (forall kc,
    key_strokes kc (handle_event (pre ++ chr :: post) idx srv e
                    ++ handle_event (pre ++ chr :: post) idx srv (release_of e))
    = ((if Z.land (state e) X.ShiftMask =? Z.land (modmask map) X.ShiftMask
        then []
        else if Shift_L_keycode srv =? kc then [needs_shift map] else [])
       ++ (if Z.land (state e) 128 =? Z.land (modmask map) 128
           then []
           else if ISO_Level3_Shift_keycode srv =? kc
                then [needs_level3 map] else [])
       ++ (if code map =? kc then [true] else []))
      ++ ((if Z.land (state e) X.ShiftMask =? Z.land (modmask map) X.ShiftMask
           then []
           else if Shift_L_keycode srv =? kc
                then [negb (needs_shift map)] else [])
          ++ (if Z.land (state e) 128 =? Z.land (modmask map) 128
              then []
              else if ISO_Level3_Shift_keycode srv =? kc then [true] else [])
          ++ (if code map =? kc then [false] else []))) as Hstrokes.
  { intros kc. rewrite key_strokes_app.
    rewrite (key_strokes_translated kc pre post chr map idx srv e) by done.
    rewrite (key_strokes_translated kc pre post chr map idx srv (release_of e))
      by done.
    rewrite Hp, Hp'. change (state (release_of e)) with (state e).
    by destruct (needs_shift map), (needs_level3 map). }
  rewrite !Hstrokes.
  rewrite !Z.eqb_refl.
  apply Z.eqb_neq in Hs as Hs1. apply Z.eqb_neq in Hl as Hl1.
  apply Z.eqb_neq in Hsl as Hsl1.
  assert ((Shift_L_keycode srv =? code map) = false) as Hs2
    by (apply Z.eqb_neq; congruence).
  assert ((ISO_Level3_Shift_keycode srv =? code map) = false) as Hl2
    by (apply Z.eqb_neq; congruence).
  assert ((ISO_Level3_Shift_keycode srv =? Shift_L_keycode srv) = false) as Hsl2
    by (apply Z.eqb_neq; congruence).
  rewrite Hs1, Hl1, Hsl1, Hs2, Hl2, Hsl2.
  destruct (Z.land (state e) X.ShiftMask =? Z.land (modmask map) X.ShiftMask);
    destruct (Z.land (state e) 128 =? Z.land (modmask map) 128);
    done.
Qed.

Lemma stroke_modifier_balance_witness :
  let t := event_loop ([alpha_orig] ++ Charcodemap 97 38 97 0 0 :: [])
             (build_map_by_char iscntrl_C [Charcodemap 97 24 97 0 128])
             [(a_server, KeyEvent X.KeyPress false 5 1000 0 38);
              (a_server, release_of (KeyEvent X.KeyPress false 5 1000 0 38))] in
  key_strokes 24 t = [true; false] /\
  key_strokes 50 t = [] /\
  key_strokes 92 t = [true; true].
Proof.
  apply (stroke_modifier_balance [alpha_orig] [] (Charcodemap 97 38 97 0 0)
           (Charcodemap 97 24 97 0 128)
           (build_map_by_char iscntrl_C [Charcodemap 97 24 97 0 128])
           a_server (KeyEvent X.KeyPress false 5 1000 0 38)).
  - reflexivity.
  - reflexivity.
  - reflexivity.
  - reflexivity.
  - intros r Hr _. apply list_elem_of_singleton in Hr as ->. reflexivity.
  - discriminate.
  - discriminate.
  - discriminate.
Defined.

Section OnlyWindowOptions.
Variable HELP_SEE_WINDOW_STACK : string.
Variable inp : inputs.

Lemma parse_options_go_iff results window_arg p :
  (exists w p', parse_options HELP_SEE_WINDOW_STACK inp results window_arg p
                = (Go w, p'))
  <-> Forall (fun r => r.1 = opt_window) (given_options results).
Proof.
  revert window_arg. induction results as [|[c optarg] rest IH]; intros w.
  { split; [constructor|]. intros _. by exists w, p. }
  cbn [parse_options given_options fst].
  destruct (c =? -1) eqn:Hend.
  { split; [constructor|]. intros _. by exists w, p. }
  destruct (Z.eqb_spec c opt_window) as [->|Hw].
  - rewrite (IH optarg). split.
    + intros H. by apply Forall_cons_2.
    + intros H. by apply Forall_cons_1 in H as [_ H].
  - split.
    + intros (w' & p' & H). exfalso. revert H.
      destruct (c =? opt_help); by run_M.
    + intros H. apply Forall_cons_1 in H as [H _]. done.
Qed.
End OnlyWindowOptions.

(** X24: the command gets as far as faking the layout exactly when every
    option reported before the end of the options is [--window]; with any
    other option it returns before the layout is read. *)
Theorem fakes_iff_only_window_options
    HELP_SEE_WINDOW_STACK iscntrl inp events cc0 :
  (cmd_fakemap HELP_SEE_WINDOW_STACK iscntrl inp events (initial_process cc0)
   = (Go (), looping iscntrl inp events))
  <-> Forall (fun r => r.1 = opt_window) (given_options (getopt_results inp)).
Proof.
  rewrite <- (parse_options_go_iff HELP_SEE_WINDOW_STACK inp (getopt_results inp)
                None (initial_process cc0)).
  destruct (cmd_fakemap_cases HELP_SEE_WINDOW_STACK iscntrl inp events cc0)
    as [E|(st & t & E & Hp & _)]; rewrite E.
  - split; [|done]. intros _.
    destruct (parse_options_cases HELP_SEE_WINDOW_STACK inp (getopt_results inp)
                None (initial_process cc0)) as [[w Hw]|(st & t & Ht & _)].
    + eauto.
    + exfalso. revert E. unfold cmd_fakemap.
      rewrite (bind_returned _ _ _ _ _
                 (bind_returned _ _ _ _ _ Ht : startup _ _ inp _ = _)).
      discriminate.
  - split; [discriminate|]. intros (w & p' & Hgo). rewrite Hgo in Hp.
    discriminate.
Qed.
